(** * bsm-fetcher: a shallow embedding of [bsm-fetcher.py]

    The script downloads the matches of each configured organisation from the
    BSM API, folds them into a tree organisation -> league -> team -> club and
    writes one JSON snapshot per season.

    Layout of the development:
    - [Py]         the Python values and operations the script relies on
                   (truthiness, [dict.get], dictionaries keyed by hashable
                   values, [list.sort] with a key function, exceptions);
    - [Fetcher]    [fetch_api_with_retry], run against a scripted network;
    - [Aggregator] the match loop of [get_structure_by_organization];
    - [Builder]    [get_structure_by_organization] and [build_structure];
    - [Writer]     [save_structure] over a small file system with injected
                   faults;
    - [Batch]      what a batch of matches says, read off the input
                   without running the loop (occurrences of a team, first
                   mention of a league);
    - [Invariants] the invariants of the accumulated dictionaries;
    - [Main]       [get_organizations] and [main];
    - [Measures]   seconds slept, expected traces and other measures of a
                   run;
    - [Samples]    concrete inputs;
    - the lemmas and theorems, one module per component.

    Scope of the model.  Decoded JSON numbers are integers ([Z]); Python
    floats are not represented.  Console output ([print]) is dropped.  Only
    exceptions derived from [Exception] are modelled ([KeyboardInterrupt] is
    not). *)

From Stdlib Require Import ZArith List String Bool Lia Sorted Permutation.
Import ListNotations.
Open Scope string_scope.
Open Scope list_scope.
Open Scope Z_scope.

(* ================================================================== *)
(** * Python values and operations *)
(* ================================================================== *)

Module Py.

(** A decoded JSON document, as [json.loads] returns it.  The same type is
    used for the dictionaries and lists the script builds for its output. *)
#[local] Set Warnings "-register-all".
Inductive json : Type :=
| JNull
| JBool (b : bool)
| JInt (n : Z)
| JStr (s : string)
| JArr (l : list json)
| JObj (kv : list (string * json)).
#[local] Set Warnings "register-all".

(** Exceptions, by the class that the script's [except] clauses test. *)
Inductive exn : Type :=
| ReqTimeout           (* requests.exceptions.Timeout *)
| ReqConnectionError   (* requests.exceptions.ConnectionError *)
| HTTPError            (* requests.exceptions.HTTPError, from raise_for_status *)
| RequestException     (* any other requests.exceptions.RequestException *)
| TypeError            (* unhashable key, or '<' between unordered types *)
| OSError              (* OSError and its subclass PermissionError *)
| OtherError (msg : string).   (* any other subclass of Exception *)

(** A computation that returns a value or raises. *)
Inductive result (A : Type) : Type :=
| Ok (a : A)
| Raise (e : exn).
Arguments Ok {A} a.
Arguments Raise {A} e.

Definition bind {A B} (r : result A) (k : A -> result B) : result B :=
  match r with
  | Ok a => k a
  | Raise e => Raise e
  end.

Notation "x <- c ;; k" := (bind c (fun x => k))
  (at level 61, c at next level, right associativity).

(** [bool(v)]: the truth value Python gives to [v] in an [if]. *)
Definition truthy (v : json) : bool :=
  match v with
  | JNull => false
  | JBool b => b
  | JInt n => negb (n =? 0)
  | JStr s => negb (String.eqb s "")
  | JArr l => match l with [] => false | _ :: _ => true end
  | JObj kv => match kv with [] => false | _ :: _ => true end
  end.

Definition is_dict (v : json) : bool :=
  match v with JObj _ => true | _ => false end.

Definition is_list (v : json) : bool :=
  match v with JArr _ => true | _ => false end.

Fixpoint assoc (k : string) (kv : list (string * json)) : option json :=
  match kv with
  | [] => None
  | (k', v) :: kv' => if String.eqb k k' then Some v else assoc k kv'
  end.

(** [d.get(k, dflt)] on a dictionary with string keys. *)
Definition get_default (k : string) (dflt : json) (d : json) : json :=
  match d with
  | JObj kv => match assoc k kv with Some v => v | None => dflt end
  | _ => dflt
  end.

(** [d.get(k)]: [None] when the key is absent. *)
Definition get (k : string) (d : json) : json := get_default k JNull d.

(** [k in d] for a dictionary with string keys. *)
Definition has_field (k : string) (d : json) : bool :=
  match d with
  | JObj kv => match assoc k kv with Some _ => true | None => false end
  | _ => false
  end.

(** ** Dictionaries keyed by arbitrary hashable values

    [leagues_dict] and each league's ['teams'] are keyed by the raw id taken
    from the response.  Python hashes and compares such keys by value:
    [True == 1] and [False == 0] are the same key as the integers, a string
    is never equal to a number, lists and dictionaries are unhashable. *)
Inductive key : Type :=
| KNone
| KInt (n : Z)
| KStr (s : string).

Definition key_eqb (a b : key) : bool :=
  match a, b with
  | KNone, KNone => true
  | KInt n, KInt m => n =? m
  | KStr s, KStr t => String.eqb s t
  | _, _ => false
  end.

Definition int_of_bool (b : bool) : Z := if b then 1 else 0.

(** [Some k] for a hashable value, [None] for an unhashable one. *)
Definition pykey (v : json) : option key :=
  match v with
  | JNull => Some KNone
  | JBool b => Some (KInt (int_of_bool b))
  | JInt n => Some (KInt n)
  | JStr s => Some (KStr s)
  | JArr _ | JObj _ => None
  end.

(** Does the stored key object [kj] denote key [k]? *)
Definition is_key (k : key) (kj : json) : bool :=
  match pykey kj with
  | Some k' => key_eqb k' k
  | None => false
  end.

Section Dict.
Context {V : Type}.

(** Insertion-ordered, as Python dictionaries are; each entry keeps the key
    object it was first inserted with. *)
Definition pydict : Type := list (json * V).

Fixpoint dict_find (k : key) (d : pydict) : option V :=
  match d with
  | [] => None
  | (kj, v) :: d' => if is_key k kj then Some v else dict_find k d'
  end.

(** Assignment through an already hashed key: an existing entry keeps its
    position and key object, a new one goes to the end. *)
Fixpoint dict_put (k : key) (kj : json) (v : V) (d : pydict) : pydict :=
  match d with
  | [] => [(kj, v)]
  | (kj', v') :: d' =>
      if is_key k kj' then (kj', v) :: d'
      else (kj', v') :: dict_put k kj v d'
  end.

(** [kj in d] *)
Definition dict_contains (kj : json) (d : pydict) : result bool :=
  match pykey kj with
  | None => Raise TypeError
  | Some k => Ok (match dict_find k d with Some _ => true | None => false end)
  end.

(** [d[kj]] ([KeyError] is an [OtherError]). *)
Definition dict_getitem (kj : json) (d : pydict) : result V :=
  match pykey kj with
  | None => Raise TypeError
  | Some k =>
      match dict_find k d with
      | Some v => Ok v
      | None => Raise (OtherError "KeyError")
      end
  end.

(** [d[kj] = v] *)
Definition dict_setitem (kj : json) (v : V) (d : pydict) : result pydict :=
  match pykey kj with
  | None => Raise TypeError
  | Some k => Ok (dict_put k kj v d)
  end.

(** [list(d.values())] *)
Definition dict_values (d : pydict) : list V := map snd d.
End Dict.
Arguments pydict V : clear implicits.

(** ** Ordering and [list.sort]

    [a < b] as the sort sees it on the values that can be a team id: numbers
    (booleans count as 0 and 1) compare by value, strings compare
    lexicographically, a number against a string raises [TypeError].  [None]
    against [None] and a dictionary against a dictionary raise as well; a
    list is never a sort key here, because the sort keys are the ids under
    which the records are stored in a dictionary, and those are hashable
    (invariant [teams_ok], lemmas [write_team_ok] and [teams_sort_keys]
    below). *)
Definition py_lt (a b : json) : result bool :=
  match a, b with
  | JInt n, JInt m => Ok (n <? m)
  | JInt n, JBool c => Ok (n <? int_of_bool c)
  | JBool b, JInt m => Ok (int_of_bool b <? m)
  | JBool b, JBool c => Ok (int_of_bool b <? int_of_bool c)
  | JStr s, JStr t => Ok (String.ltb s t)
  | _, _ => Raise TypeError
  end.

Section Sort.
Context {A : Type} (keyf : A -> json).

(** [list.sort(key=keyf)] is stable and only uses [<] on the keys.  For
    keys that [<] orders totally the result is the unique stable sorted
    arrangement, which the insertion sort below computes; when two keys
    cannot be compared the sort raises [TypeError]. *)
Fixpoint insert_sorted (x : A) (l : list A) : result (list A) :=
  match l with
  | [] => Ok [x]
  | y :: l' =>
      lt <- py_lt (keyf y) (keyf x) ;;
      if lt then (r <- insert_sorted x l' ;; Ok (y :: r))
      else Ok (x :: y :: l')
  end.

Fixpoint list_sort (l : list A) : result (list A) :=
  match l with
  | [] => Ok []
  | x :: l' => s <- list_sort l' ;; insert_sorted x s
  end.
End Sort.

End Py.

Import Py.

(* ================================================================== *)
(** * The resilient fetcher *)
(* ================================================================== *)

Module Fetcher.

(** Konfiguration *)
Definition MAX_RETRIES : Z := 3.
Definition RETRY_DELAY : Z := 10.
Definition REQUEST_DELAY : Z := 2.

(** The URL of a request is determined by the organisation id and the
    year. *)
Record url : Type := { url_org : json; url_year : Z }.

(** What the script reads of a [requests.Response]: the status code and
    what [response.json()] gives ([None]: [json.JSONDecodeError]). *)
Record response : Type := { status_code : Z; body : option json }.

(** One call of [requests.get]: a response, or an exception. *)
Inductive outcome : Type :=
| Responds (r : response)
| Fails (e : exn).

(** The network is scripted: the outcome of the [n]-th request of the run
    (counted from 0), given its URL. *)
Definition network : Type := nat -> url -> outcome.

Inductive event : Type :=
| EvRequest (u : url)
| EvSleep (seconds : Z).

(** The observable effects so far: how many requests were sent, and the
    requests and sleeps in the order they happened. *)
Record world : Type := { requests : nat; events : list event }.

Definition requests_get (net : network) (u : url) (w : world) : world * outcome :=
  ({| requests := S (requests w); events := events w ++ [EvRequest u] |},
   net (requests w) u).

Definition sleep (seconds : Z) (w : world) : world :=
  {| requests := requests w; events := events w ++ [EvSleep seconds] |}.

(** [Response.raise_for_status] of the requests library: raises [HTTPError]
    for a status in 400..599 and returns normally otherwise. *)
Definition raise_for_status (r : response) : result unit :=
  if (400 <=? status_code r) && (status_code r <? 600) then Raise HTTPError
  else Ok tt.

(** How one pass through the body of the [for] loop ends. *)
Inductive control : Type :=
| Continue                         (* go on with the next attempt *)
| Return (r : option response)     (* return from the function *)
| Propagate (e : exn).             (* an exception no clause catches *)

(** The [except] clauses, lines 120-140. *)
Definition handle (e : exn) (attempt max_retries : Z) (w : world)
  : world * control :=
  match e with
  | ReqTimeout =>
      if attempt <? max_retries then (sleep RETRY_DELAY w, Continue)
      else (w, Return None)
  | ReqConnectionError =>
      if attempt <? max_retries then (sleep RETRY_DELAY w, Continue)
      else (w, Return None)
  | HTTPError | RequestException => (w, Return None)
  | TypeError | OSError | OtherError _ => (w, Propagate e)
  end.

(** The [try] block, lines 74-118. *)
Definition attempt_once (net : network) (u : url) (attempt max_retries : Z)
    (w : world) : world * control :=
  let (w, o) := requests_get net u w in
  match o with
  | Fails e => handle e attempt max_retries w
  | Responds response =>
      if status_code response =? 200 then (w, Return (Some response))
      else if status_code response =? 429 then
        if attempt <? max_retries
        then (sleep (RETRY_DELAY * attempt) w, Continue)
        else (w, Return None)
      else if status_code response =? 503 then
        if attempt <? max_retries
        then (sleep (RETRY_DELAY * attempt) w, Continue)
        else (w, Return None)
      else if status_code response =? 404 then (w, Return None)
      else if status_code response >=? 500 then
        if attempt <? max_retries
        then (sleep (RETRY_DELAY * attempt) w, Continue)
        else (w, Return None)
      else
        match raise_for_status response with
        | Raise e => handle e attempt max_retries w
        | Ok _ => (w, Continue)   (* nothing raised: the loop goes on *)
        end
  end.

(** [for attempt in range(1, max_retries + 1)], with [n] passes left; the
    [return None] of line 142 when the range is used up. *)
Fixpoint fetch_loop (net : network) (u : url) (n : nat)
    (attempt max_retries : Z) (w : world)
  : world * result (option response) :=
  match n with
  | O => (w, Ok None)
  | S n' =>
      match attempt_once net u attempt max_retries w with
      | (w', Continue) => fetch_loop net u n' (attempt + 1) max_retries w'
      | (w', Return r) => (w', Ok r)
      | (w', Propagate e) => (w', Raise e)
      end
  end.

Definition fetch_api_with_retry (net : network) (u : url) (max_retries : Z)
    (w : world) : world * result (option response) :=
  fetch_loop net u (Z.to_nat max_retries) 1 max_retries w.

End Fetcher.

(* ================================================================== *)
(** * The match aggregator *)
(* ================================================================== *)

Module Aggregator.

(** A league while the matches are read: ['teams'] is a dictionary keyed by
    team id. *)
Record league_acc : Type :=
  { la_id : json; la_name : json; la_teams : pydict json }.

(** A league in the result: ['teams'] is a list. *)
Record league : Type :=
  { l_id : json; l_name : json; l_teams : list json }.

Definition set_teams (la : league_acc) (teams : pydict json) : league_acc :=
  {| la_id := la_id la; la_name := la_name la; la_teams := teams |}.

Definition as_list (v : json) : list json :=
  match v with JArr l => l | _ => [] end.

Definition len (v : json) : Z := Z.of_nat (List.length (as_list v)).

(** Lines 222-228. *)
Definition club_record (club : json) : json :=
  JObj [("id", get "id" club);
        ("name", get "name" club);
        ("acronym", get "acronym" club);
        ("short_name", get "short_name" club);
        ("logo_url", get "logo_url" club)].

(** Lines 219-228: the records of the elements that are dictionaries. *)
Definition clubs_list (clubs : json) : list json :=
  map club_record (filter is_dict (as_list clubs)).

(** Lines 207-233 (and 242-268): the record built from one team object. *)
Definition team_data (team : json) : json :=
  let team_id := get "id" team in
  let team_name := get "name" team in
  let base := [("id", team_id); ("name", team_name)] in
  let clubs := get "clubs" team in
  if truthy clubs && is_list clubs && (len clubs >? 0) then
    match clubs_list clubs with
    | [] => JObj base
    | [club] => JObj (base ++ [("club", club)])
    | cl => JObj (base ++ [("clubs", JArr cl)])
    end
  else JObj base.

(** Lines 203-235 for the home side and, word for word, lines 238-270 for
    the away side; [entry] is [match.get('home_league_entry')] or
    [match.get('away_league_entry')]. *)
Definition ingest_side (league_id : json) (entry : json)
    (leagues_dict : pydict league_acc) : result (pydict league_acc) :=
  if truthy entry && is_dict entry then
    let team := get "team" entry in
    if truthy team && is_dict team then
      let team_id := get "id" team in
      if truthy team_id then
        (* leagues_dict[league_id]['teams'][team_id] = team_data *)
        la <- dict_getitem league_id leagues_dict ;;
        teams <- dict_setitem team_id (team_data team) (la_teams la) ;;
        dict_setitem league_id (set_teams la teams) leagues_dict
      else Ok leagues_dict
    else Ok leagues_dict
  else Ok leagues_dict.

(** The body of [for match in matches], lines 184-270. *)
Definition process_match (leagues_dict : pydict league_acc) (m : json)
  : result (pydict league_acc) :=
  if negb (is_dict m) then Ok leagues_dict
  else
    let league := get "league" m in
    if truthy league && is_dict league then
      let league_id := get "id" league in
      let league_name := get "name" league in
      if truthy league_id then
        present <- dict_contains league_id leagues_dict ;;
        leagues_dict <-
          (if negb present
           then dict_setitem league_id
                  {| la_id := league_id; la_name := league_name;
                     la_teams := [] |} leagues_dict
           else Ok leagues_dict) ;;
        leagues_dict <-
          ingest_side league_id (get "home_league_entry" m) leagues_dict ;;
        ingest_side league_id (get "away_league_entry" m) leagues_dict
      else Ok leagues_dict
    else Ok leagues_dict.

Fixpoint match_loop (leagues_dict : pydict league_acc) (matches : list json)
  : result (pydict league_acc) :=
  match matches with
  | [] => Ok leagues_dict
  | m :: rest =>
      leagues_dict <- process_match leagues_dict m ;;
      match_loop leagues_dict rest
  end.

(** [lambda x: x.get('id', 0)] *)
Definition sort_key (x : json) : json := get_default "id" (JInt 0) x.

(** Lines 274-277 for one league. *)
Definition finish_league (la : league_acc) : result league :=
  teams_list <- list_sort sort_key (dict_values (la_teams la)) ;;
  Ok {| l_id := la_id la; l_name := la_name la; l_teams := teams_list |}.

(** [for league_id in leagues_dict], lines 273-277. *)
Fixpoint finish (leagues_dict : pydict league_acc) : result (pydict league) :=
  match leagues_dict with
  | [] => Ok []
  | (league_id, la) :: rest =>
      l <- finish_league la ;;
      rest <- finish rest ;;
      Ok ((league_id, l) :: rest)
  end.

(** Lines 161 and 183-277: from the decoded match list to the league
    mapping that is returned under ['leagues']. *)
Definition aggregate (matches : list json) : result (pydict league) :=
  leagues_dict <- match_loop [] matches ;;
  finish leagues_dict.

End Aggregator.

(* ================================================================== *)
(** * The structure builder *)
(* ================================================================== *)

Module Builder.
Import Fetcher Aggregator.

(** Lines 156-283.  [org_name] only appears in the messages. *)
Definition get_structure_by_organization (net : network) (org_name : string)
    (org_id : json) (year : Z) (w : world)
  : world * result (pydict league) :=
  let u := {| url_org := org_id; url_year := year |} in
  match fetch_api_with_retry net u MAX_RETRIES w with
  | (w, Raise e) => (w, Raise e)
  | (w, Ok None) => (w, Ok [])
  | (w, Ok (Some response)) =>
      match body response with
      | None => (w, Ok [])            (* json.JSONDecodeError *)
      | Some matches =>
          if negb (is_list matches) then (w, Ok [])
          else (w, aggregate (as_list matches))
      end
  end.

(** One entry of ['organizations'].  [o_error] is the exception whose
    [str()] the script stores under ['error']; [None]: no such field. *)
Record org_entry : Type :=
  { o_id : json; o_leagues : pydict league; o_error : option exn }.

(** ['metadata'], without the ['generated_at'] time stamp. *)
Record metadata : Type :=
  { total_organizations : Z;
    successful_organizations : Z;
    failed_organizations : Z }.

Record structure : Type :=
  { s_year : Z;
    s_organizations : pydict org_entry;
    s_metadata : metadata }.

(** [structure['organizations'][org_name] = entry] *)
Definition set_organization (org_name : string) (entry : org_entry)
    (s : structure) : structure :=
  {| s_year := s_year s;
     s_organizations :=
       dict_put (KStr org_name) (JStr org_name) entry (s_organizations s);
     s_metadata := s_metadata s |}.

(** [structure['metadata']['successful_organizations'] += 1] *)
Definition count_successful (s : structure) : structure :=
  {| s_year := s_year s;
     s_organizations := s_organizations s;
     s_metadata :=
       {| total_organizations := total_organizations (s_metadata s);
          successful_organizations :=
            successful_organizations (s_metadata s) + 1;
          failed_organizations := failed_organizations (s_metadata s) |} |}.

(** [structure['metadata']['failed_organizations'] += 1] *)
Definition count_failed (s : structure) : structure :=
  {| s_year := s_year s;
     s_organizations := s_organizations s;
     s_metadata :=
       {| total_organizations := total_organizations (s_metadata s);
          successful_organizations := successful_organizations (s_metadata s);
          failed_organizations := failed_organizations (s_metadata s) + 1 |} |}.

(** Lines 324-329: the leagues are written one by one into the entry. *)
Fixpoint copy_leagues (items : pydict league) (leagues : pydict league)
  : result (pydict league) :=
  match items with
  | [] => Ok leagues
  | (league_id, league_data) :: rest =>
      leagues <- dict_setitem league_id
                   {| l_id := l_id league_data;
                      l_name := l_name league_data;
                      l_teams := l_teams league_data |} leagues ;;
      copy_leagues rest leagues
  end.

(** [bool(d)] for a dictionary. *)
Definition nonempty {V} (d : pydict V) : bool :=
  match d with [] => false | _ :: _ => true end.

(** Lines 315-345: the [try] statement for one organisation.  When the
    [try] block raises, the [except] clause replaces whatever entry the
    block had written. *)
Definition process_organization (net : network) (year : Z)
    (org_name : string) (org_id : json) (s : structure) (w : world)
  : world * structure :=
  let (w, r) := get_structure_by_organization net org_name org_id year w in
  match (org_data <- r ;;
         leagues <- copy_leagues org_data [] ;;
         Ok (org_data, leagues)) with
  | Ok (org_data, leagues) =>
      let s := set_organization org_name
                 {| o_id := org_id; o_leagues := leagues; o_error := None |}
                 s in
      if nonempty org_data then (w, count_successful s)
      else (w, count_failed s)
  | Raise e =>
      let s := set_organization org_name
                 {| o_id := org_id; o_leagues := []; o_error := Some e |}
                 s in
      (w, count_failed s)
  end.

(** [for org_name, org_id in organizations.items()], lines 311-349. *)
Fixpoint build_loop (net : network) (year : Z)
    (organizations : list (string * json)) (current_org total_orgs : Z)
    (s : structure) (w : world) : world * structure :=
  match organizations with
  | [] => (w, s)
  | (org_name, org_id) :: rest =>
      let current_org := current_org + 1 in
      let (w, s) := process_organization net year org_name org_id s w in
      let w := if current_org <? total_orgs then sleep REQUEST_DELAY w
               else w in
      build_loop net year rest current_org total_orgs s w
  end.

Definition initial_structure (organizations : list (string * json))
    (year : Z) : structure :=
  {| s_year := year;
     s_organizations := [];
     s_metadata :=
       {| total_organizations := Z.of_nat (List.length organizations);
          successful_organizations := 0;
          failed_organizations := 0 |} |}.

(** [organizations] lists the items of the configuration dictionary in
    order; its names are pairwise different. *)
Definition build_structure (net : network)
    (organizations : list (string * json)) (year : Z) (w : world)
  : world * structure :=
  build_loop net year organizations 0
    (Z.of_nat (List.length organizations))
    (initial_structure organizations year) w.

(** The entries with a non-empty league mapping, and those with an empty
    one. *)
Definition successes (orgs : pydict org_entry) : Z :=
  Z.of_nat (List.length
              (filter (fun e => nonempty (o_leagues (snd e))) orgs)).

Definition failures (orgs : pydict org_entry) : Z :=
  Z.of_nat (List.length
              (filter (fun e => negb (nonempty (o_leagues (snd e)))) orgs)).

(** Entry [e] is the entry of the configured organisation [o]. *)
Definition entry_of (o : string * json) (e : json * org_entry) : Prop :=
  fst e = JStr (fst o) /\ o_id (snd e) = snd o.

(** Line 348-349: the pause after organisation number [current_org]. *)
Definition pace (current_org total_orgs : Z) (w : world) : world :=
  if current_org <? total_orgs then sleep REQUEST_DELAY w else w.

End Builder.

(* ================================================================== *)
(** * The snapshot writer *)
(* ================================================================== *)

Module Writer.

(** The two files [save_structure] touches for a year:
    [data/bsm-structure-<year>.json] and the same name with [.tmp]. *)
Inductive path : Type :=
| OutputFile (year : Z)
| TempFile (year : Z).

Definition path_eqb (p q : path) : bool :=
  match p, q with
  | OutputFile y, OutputFile z => y =? z
  | TempFile y, TempFile z => y =? z
  | _, _ => false
  end.

(** The operations of [save_structure] that can raise. *)
Inductive op : Type :=
| OpMakedirs          (* os.makedirs(data_dir) *)
| OpOpen              (* open(temp_file, 'w') *)
| OpDump              (* json.dump(structure, f) and closing the file *)
| OpRemove            (* os.remove(output_file) *)
| OpRename.           (* os.rename(temp_file, output_file) *)

(** Which operations fail in this run, and with what. *)
Definition faults : Type := op -> option exn.

Definition op_eqb (a b : op) : bool :=
  match a, b with
  | OpMakedirs, OpMakedirs | OpOpen, OpOpen | OpDump, OpDump
  | OpRemove, OpRemove | OpRename, OpRename => true
  | _, _ => false
  end.

(** A run in which exactly operation [o] fails, with [e]. *)
Definition fail_at (o : op) (e : exn) : faults :=
  fun o' => if op_eqb o' o then Some e else None.

Section Save.
Context {doc : Type}.

(** What a file holds: the whole serialisation of a document, or one that
    was cut short. *)
Inductive content : Type :=
| Complete (d : doc)
| Partial (d : doc).

Record fs : Type :=
  { data_dir_exists : bool; file : path -> option content }.

Definition write_file (p : path) (c : option content) (f : fs) : fs :=
  {| data_dir_exists := data_dir_exists f;
     file := fun q => if path_eqb q p then c else file f q |}.

(** The file system now and the states it went through before. *)
Record disk : Type := { now : fs; past : list fs }.

Definition change (g : fs -> fs) (d : disk) : disk :=
  {| now := g (now d); past := past d ++ [now d] |}.

(** An operation: raises when the run injects a fault for it, leaving the
    disk as it was, and otherwise applies its effect. *)
Definition perform (fl : faults) (o : op) (g : fs -> fs) (d : disk)
  : disk * result unit :=
  match fl o with
  | Some e => (d, Raise e)
  | None => (change g d, Ok tt)
  end.

Definition andthen (c1 : disk * result unit)
    (c2 : disk -> disk * result unit) : disk * result unit :=
  match c1 with
  | (d, Ok _) => c2 d
  | (d, Raise e) => (d, Raise e)
  end.

(** Lines 368-385, the part of the [try] block that works on the disk.
    The test of line 374 always passes: the document is the dictionary
    that [build_structure] returns. *)
Definition try_block (fl : faults) (structure : doc) (year : Z) (d : disk)
  : disk * result unit :=
  let output_file := OutputFile year in
  let temp_file := TempFile year in
  andthen
    (if negb (data_dir_exists (now d))
     then perform fl OpMakedirs
            (fun f => {| data_dir_exists := true; file := file f |}) d
     else (d, Ok tt))
  (fun d => andthen
    (* open(..., 'w') creates or empties the file *)
    (perform fl OpOpen (write_file temp_file (Some (Partial structure))) d)
  (fun d => andthen
    (perform fl OpDump (write_file temp_file (Some (Complete structure))) d)
  (fun d => andthen
    (match file (now d) output_file with
     | Some _ => perform fl OpRemove (write_file output_file None) d
     | None => (d, Ok tt)
     end)
  (fun d =>
    perform fl OpRename
      (fun f => write_file temp_file None
                  (write_file output_file (file f temp_file) f)) d)))).

(** The [except] clauses, lines 398-409.  The third clause names
    [json.JSONEncodeError], which the [json] module does not have: an
    exception that is not an [OSError] reaches it and the lookup raises
    [AttributeError] out of the function. *)
Definition save_structure (fl : faults) (structure : doc) (year : Z)
    (d : disk) : disk * result bool :=
  match try_block fl structure year d with
  | (d, Ok _) => (d, Ok true)
  | (d, Raise OSError) => (d, Ok false)
  | (d, Raise _) => (d, Raise (OtherError "AttributeError"))
  end.
(** A disk whose data directory holds the snapshot [c] of [year] and
    nothing else. *)
Definition disk_with (c : content) (year : Z) : disk :=
  {| now := {| data_dir_exists := true;
               file := fun p => if path_eqb p (OutputFile year)
                                then Some c else None |};
     past := [] |}.
End Save.
Arguments content doc : clear implicits.
Arguments fs doc : clear implicits.
Arguments disk doc : clear implicits.

(** Unfolding the operations of a run. *)
Ltac run_try :=
  unfold try_block, andthen, perform, change, write_file; simpl.

Ltac run_save := unfold save_structure; run_try.

(** One case per operation that can fail before the rename. *)
Ltac each_fault fl d year :=
  destruct (data_dir_exists (now d)); simpl;
  destruct (fl OpMakedirs); simpl;
  destruct (fl OpOpen); simpl;
  destruct (fl OpDump); simpl;
  destruct (file (now d) (OutputFile year)) eqn:?; simpl;
  destruct (fl OpRemove); simpl.

End Writer.

(* ================================================================== *)
(** * What a batch of matches says, read off independently of the loop *)
(* ================================================================== *)

Module Batch.
Import Aggregator.

(** The league object of a match that names a league. *)
Definition match_league (m : json) : option json :=
  if is_dict m then
    let league := get "league" m in
    if truthy league && is_dict league && truthy (get "id" league)
    then Some league else None
  else None.

(** The team object of a side ([home_league_entry] or [away_league_entry])
    that names a team. *)
Definition side_team (entry : json) : option json :=
  if truthy entry && is_dict entry then
    let team := get "team" entry in
    if truthy team && is_dict team && truthy (get "id" team)
    then Some team else None
  else None.

Definition opt_list {A} (o : option A) : list A :=
  match o with Some a => [a] | None => [] end.

(** The team objects of a match, home side first. *)
Definition match_teams (m : json) : list json :=
  opt_list (side_team (get "home_league_entry" m)) ++
  opt_list (side_team (get "away_league_entry" m)).

(** The team objects under which team [tk] occurs in match [m], when [m]
    belongs to league [lk]. *)
Definition occurrences_in (lk tk : key) (m : json) : list json :=
  match match_league m with
  | Some league =>
      if is_key lk (get "id" league)
      then filter (fun team => is_key tk (get "id" team)) (match_teams m)
      else []
  | None => []
  end.

(** All occurrences of team [tk] in league [lk], in batch order. *)
Definition occurrences (lk tk : key) (matches : list json) : list json :=
  flat_map (occurrences_in lk tk) matches.

Definition last_opt {A} (l : list A) : option A :=
  List.last (map Some l) None.

Definition last_occurrence (lk tk : key) (matches : list json)
  : option json :=
  last_opt (occurrences lk tk matches).

(** The team objects under which team id [tk] occurs in match [m],
    whatever the league of [m]. *)
Definition occurrences_anywhere_in (tk : key) (m : json) : list json :=
  match match_league m with
  | Some _ => filter (fun team => is_key tk (get "id" team)) (match_teams m)
  | None => []
  end.

(** The last occurrence of team id [tk] in the whole batch. *)
Definition last_occurrence_in_batch (tk : key) (matches : list json)
  : option json :=
  last_opt (flat_map (occurrences_anywhere_in tk) matches).

(** The league objects that mention league [lk], in batch order. *)
Definition mentions (lk : key) (matches : list json) : list json :=
  flat_map (fun m =>
    match match_league m with
    | Some league => if is_key lk (get "id" league) then [league] else []
    | None => []
    end) matches.

Definition first_mention (lk : key) (matches : list json) : option json :=
  List.hd_error (mentions lk matches).

(** Structural equality of payloads. *)
Fixpoint json_eqb (a b : json) : bool :=
  match a, b with
  | JNull, JNull => true
  | JBool x, JBool y => Bool.eqb x y
  | JInt x, JInt y => x =? y
  | JStr x, JStr y => String.eqb x y
  | JArr l, JArr l' =>
      (fix all2 (l l' : list json) : bool :=
         match l, l' with
         | [], [] => true
         | x :: l, y :: l' => json_eqb x y && all2 l l'
         | _, _ => false
         end) l l'
  | JObj kv, JObj kv' =>
      (fix all2 (l l' : list (string * json)) : bool :=
         match l, l' with
         | [], [] => true
         | (k, x) :: l, (k', y) :: l' =>
             String.eqb k k' && json_eqb x y && all2 l l'
         | _, _ => false
         end) kv kv'
  | _, _ => false
  end.

(** The elements of [l] without repetitions, in first-seen order. *)
Fixpoint distinct (seen l : list json) : list json :=
  match l with
  | [] => []
  | x :: l' =>
      if existsb (json_eqb x) seen then distinct seen l'
      else x :: distinct (x :: seen) l'
  end.

(** The distinct club payloads seen for team [tk] of league [lk] across
    the whole batch, in first-seen order. *)
Definition clubs_seen (lk tk : key) (matches : list json) : list json :=
  distinct []
    (flat_map (fun team => clubs_list (get "clubs" team))
       (occurrences lk tk matches)).

(** The club fields of a team record [r] are those for the club payloads
    [cl]: none, a singular [club], or the sequence [clubs]. *)
Definition club_fields (cl : list json) (r : json) : Prop :=
  match cl with
  | [] => has_field "club" r = false /\ has_field "clubs" r = false
  | [club] =>
      has_field "club" r = true /\ get "club" r = club /\
      has_field "clubs" r = false
  | _ =>
      has_field "clubs" r = true /\ get "clubs" r = JArr cl /\
      has_field "club" r = false
  end.

(** The reading under which the club fields of every team record follow
    the distinct payloads seen across the batch. *)
Definition club_fields_follow_batch (matches : list json) : Prop :=
  forall out kj lk tk L r,
    aggregate matches = Ok out ->
    In (kj, L) out ->
    pykey kj = Some lk ->
    In r (l_teams L) ->
    pykey (get "id" r) = Some tk ->
    (List.length (clubs_seen lk tk matches) <= 2)%nat ->
    club_fields (clubs_seen lk tk matches) r.

(** The reading under which every team record follows the last occurrence
    of its id anywhere in the batch. *)
Definition last_write_wins_across_batch (matches : list json) : Prop :=
  forall out kj L r tk,
    aggregate matches = Ok out ->
    In (kj, L) out ->
    In r (l_teams L) ->
    pykey (get "id" r) = Some tk ->
    exists team,
      last_occurrence_in_batch tk matches = Some team /\
      r = team_data team.

(** A match as the API delivers it: the ids it names are integers. *)
Definition integer_ids (m : json) : Prop :=
  (forall league, match_league m = Some league ->
     exists n, get "id" league = JInt n) /\
  (forall team, In team (match_teams m) -> exists n, get "id" team = JInt n).

End Batch.

(* ================================================================== *)
(** * Invariants of the dictionaries the loop maintains *)
(* ================================================================== *)

Module Invariants.
Import Aggregator.

Definition dict_keys {V} (d : pydict V) : list (option key) :=
  map (fun p => pykey (fst p)) d.

(** Every stored key object is hashable and no key is stored twice. *)
Definition dict_wf {V} (d : pydict V) : Prop :=
  NoDup (dict_keys d) /\ ~ In None (dict_keys d).

(** Each record of a ['teams'] dictionary was built from a team object
    whose id is the key it is stored under. *)
Definition teams_ok (teams : pydict json) : Prop :=
  dict_wf teams /\
  forall kj r, In (kj, r) teams ->
    exists team, r = team_data team /\ pykey (get "id" team) = pykey kj.

Definition acc_ok (d : pydict league_acc) : Prop :=
  dict_wf d /\
  forall kj la, In (kj, la) d -> la_id la = kj /\ teams_ok (la_teams la).

(** The record stored for team [tk] of league [lk]. *)
Definition find_team (lk tk : key) (d : pydict league_acc) : option json :=
  match dict_find lk d with
  | Some la => dict_find tk (la_teams la)
  | None => None
  end.

(** The id and name stored for league [lk]. *)
Definition find_head (lk : key) (d : pydict league_acc)
  : option (json * json) :=
  match dict_find lk d with
  | Some la => Some (la_id la, la_name la)
  | None => None
  end.

(** What line 235 (and 270) does to [leagues_dict] once both ids are
    hashed: the record of [team] replaces whatever league [lk] stored for
    team [tk]. *)
Definition write_team (lk : key) (league_id : json) (la : league_acc)
    (tk : key) (team : json) (d : pydict league_acc) : pydict league_acc :=
  dict_put lk league_id
    (set_teams la
       (dict_put tk (get "id" team) (team_data team) (la_teams la))) d.

(** Every team record stored in [d] carries an integer id. *)
Definition integer_teams (d : pydict league_acc) : Prop :=
  forall kj la, In (kj, la) d ->
    Forall (fun r => exists n, sort_key r = JInt n)
      (dict_values (la_teams la)).

(** [a] sorts strictly before [b] under the key of the final sort. *)
Definition id_lt (a b : json) : Prop :=
  py_lt (sort_key a) (sort_key b) = Ok true.

End Invariants.

(* ================================================================== *)
(** * Loading the configuration and the main function *)
(* ================================================================== *)

Module Main.
Import Fetcher Builder Writer.

(** What [get_organizations] finds at [config/organizations.json]. *)
Inductive config_file : Type :=
| NoFile                        (* os.path.exists(config_path) is false *)
| Unreadable (e : exn)          (* open or read raises e *)
| Invalid                       (* json.load raises json.JSONDecodeError *)
| Holds (organizations : json). (* what json.load returns *)

(** How a function that may call [sys.exit] ends. *)
Inductive ending (A : Type) : Type :=
| Returns (a : A)
| Exits (code : Z).
Arguments Returns {A} a.
Arguments Exits {A} code.

(** Lines 33-46, the [try] block. *)
Definition load_config (cfg : config_file) : result json :=
  match cfg with
  | NoFile => Raise (OtherError "FileNotFoundError")
  | Unreadable e => Raise e
  | Invalid => Raise (OtherError "JSONDecodeError")
  | Holds organizations =>
      if negb (is_dict organizations)
      then Raise (OtherError "ValueError")
      else Ok organizations   (* an empty dictionary only prints a warning *)
  end.

(** Lines 32-59: each of the four [except] clauses calls [sys.exit(1)]. *)
Definition get_organizations (cfg : config_file) : ending json :=
  match load_config cfg with
  | Ok organizations => Returns organizations
  | Raise _ => Exits 1
  end.

(** [organizations.items()] and [len(organizations)]. *)
Definition items (organizations : json) : list (string * json) :=
  match organizations with JObj kv => kv | _ => [] end.

(** Lines 420-455.  The result is the network trace, the disk and the exit
    status of the process (0 when [main] returns).  [sys.exit] raises
    [SystemExit], which the clause [except Exception] does not catch; an
    exception out of [save_structure] is caught by it and ends in
    [sys.exit(1)]. *)
Definition main (cfg : config_file) (net : network) (fl : faults) (year : Z)
    (w : world) (d : disk structure) : world * disk structure * Z :=
  match get_organizations cfg with
  | Exits code => (w, d, code)
  | Returns organizations =>
      if Z.of_nat (List.length (items organizations)) =? 0 then (w, d, 1)
      else
        let (w, structure) :=
          build_structure net (items organizations) year w in
        match save_structure fl structure year d with
        | (d, Ok true) => (w, d, 0)
        | (d, Ok false) => (w, d, 1)
        | (d, Raise _) => (w, d, 1)
        end
  end.

End Main.

(* ================================================================== *)
(** * Measures of a run *)
(* ================================================================== *)

Module Measures.
Import Fetcher Aggregator Builder Batch.

(** The seconds slept in a trace. *)
Fixpoint slept (evs : list event) : Z :=
  match evs with
  | [] => 0
  | EvSleep seconds :: evs' => seconds + slept evs'
  | EvRequest _ :: evs' => slept evs'
  end.

(** The statuses that the fetcher answers with a backoff and a retry:
    429, 503 and the other server errors. *)
Definition retryable (status : Z) : bool :=
  (status =? 429) || (status =? 503) || (status >=? 500).

(** The trace of [n] attempts that are all retried, starting with attempt
    number [attempt], when the sleep after attempt [a] is [delay a]: no
    sleep follows the last attempt. *)
Fixpoint retry_trace (delay : Z -> Z) (u : url) (n : nat) (attempt : Z)
  : list event :=
  match n with
  | O => []
  | S O => [EvRequest u]
  | S n' =>
      EvRequest u :: EvSleep (delay attempt) ::
      retry_trace delay u n' (attempt + 1)
  end.

(** The linear backoff of lines 84, 94 and 108. *)
Definition backoff_trace (u : url) (n : nat) : list event :=
  retry_trace (fun attempt => RETRY_DELAY * attempt) u n 1.

(** The fixed delay of lines 123 and 132. *)
Definition fixed_trace (u : url) (n : nat) : list event :=
  retry_trace (fun _ => RETRY_DELAY) u n 1.

(** The part of the trace that was added between two worlds. *)
Definition added (w w' : world) : list event :=
  skipn (List.length (events w)) (events w').

(** The world right after one more request. *)
Definition after_request (u : url) (w : world) : world :=
  {| requests := S (requests w); events := events w ++ [EvRequest u] |}.

(** A trace that is empty or whose last event is a request. *)
Definition ends_with_request (t : list event) : Prop :=
  t = [] \/ exists t' u, t = t' ++ [EvRequest u].

(** An exception of the transport that the fetcher retries. *)
Definition transient (e : exn) : bool :=
  match e with
  | ReqTimeout | ReqConnectionError => true
  | _ => false
  end.

(** An exception that the fetcher's [except] clauses catch. *)
Definition caught (e : exn) : bool :=
  match e with
  | ReqTimeout | ReqConnectionError | HTTPError | RequestException => true
  | _ => false
  end.

(** A match the loop does something with: it names a league. *)
Definition names_league (m : json) : bool :=
  match match_league m with Some _ => true | None => false end.

(** The keys of [l] without repetitions, in first-seen order. *)
Fixpoint first_seen (seen l : list key) : list key :=
  match l with
  | [] => []
  | k :: l' =>
      if existsb (key_eqb k) seen then first_seen seen l'
      else k :: first_seen (k :: seen) l'
  end.

(** The keys of the leagues that the matches name, in batch order, with
    repetitions. *)
Definition league_keys (matches : list json) : list key :=
  flat_map (fun m =>
    match match_league m with
    | Some league =>
        match pykey (get "id" league) with Some k => [k] | None => [] end
    | None => []
    end) matches.

(** Is [v] a string? *)
Definition is_str (v : json) : bool :=
  match v with JStr _ => true | _ => false end.

(** One case for every test of an [if]. *)
Ltac split_ifs :=
  repeat match goal with
         | |- context [if ?b then _ else _] => destruct b eqn:?
         end.

End Measures.

(* ================================================================== *)
(** * Sample inputs *)
(* ================================================================== *)

Module Samples.
Import Fetcher Aggregator Builder.

Definition club (id : Z) (name : string) : json :=
  JObj [("id", JInt id); ("name", JStr name)].

Definition team (id : json) (name : string) (clubs : list json) : json :=
  JObj [("id", id); ("name", JStr name); ("clubs", JArr clubs)].

Definition entry (t : json) : json := JObj [("team", t)].

Definition league_obj (id : json) (name : string) : json :=
  JObj [("id", id); ("name", JStr name)].

Definition game (lg home away : json) : json :=
  JObj [("league", lg);
        ("home_league_entry", entry home);
        ("away_league_entry", entry away)].

Definition club_nine : json := club 9 "Club Nine".
Definition club_ten : json := club 10 "Club Ten".

Definition tigers : json := team (JInt 100) "Tigers" [club_nine].
Definition bears : json :=
  JObj [("id", JInt 200); ("name", JStr "Bears")].

(** The scenario of the specification: one match of league 5. *)
Definition scenario : list json :=
  [game (league_obj (JInt 5) "U18") tigers bears].

(** Team 100 first with club nine, later with club ten. *)
Definition two_payloads : list json :=
  [game (league_obj (JInt 5) "U18") tigers bears;
   game (league_obj (JInt 5) "U18 renamed") bears
        (team (JInt 100) "Tigers II" [club_ten])].

(** Team 100 in league 5 with club nine, later in league 6 with club
    ten. *)
Definition cross_league : list json :=
  [game (league_obj (JInt 5) "U18") tigers bears;
   game (league_obj (JInt 6) "U15") (team (JInt 100) "Tigers II" [club_ten])
        bears].

(** Team ids arriving out of order. *)
Definition unsorted_batch : list json :=
  [game (league_obj (JInt 5) "U18")
        (team (JInt 300) "Lions" []) (team (JInt 100) "Tigers" []);
   game (league_obj (JInt 5) "U18")
        (team (JInt 200) "Bears" []) (team (JInt 100) "Tigers" [])].

(** A league whose id is a list: truthy, but unhashable. *)
Definition unhashable_batch : list json :=
  [game (league_obj (JArr [JInt 5]) "U18") tigers bears].

Definition respond (status : Z) (matches : list json) : outcome :=
  Responds {| status_code := status; body := Some (JArr matches) |}.

(** A network that answers the successive requests with [outcomes] and
    refuses every connection after them. *)
Definition script (outcomes : list outcome) : network :=
  fun n _ => nth n outcomes (Fails ReqConnectionError).

Definition fresh : world := {| requests := 0; events := [] |}.

(** Two organisations; the first answer carries a league whose id is
    unhashable, the second the scenario of the specification. *)
Definition two_orgs : list (string * json) :=
  [("Nord", JStr "1"); ("Sued", JStr "2")].

Definition one_bad_answer : network :=
  script [respond 200 unhashable_batch; respond 200 scenario].

Definition result_of {A} (r : result (pydict A)) : pydict A :=
  match r with Ok d => d | Raise _ => [] end.

Definition scenario_out : pydict Aggregator.league :=
  Eval vm_compute in result_of (aggregate scenario).

Definition two_payloads_out : pydict Aggregator.league :=
  Eval vm_compute in result_of (aggregate two_payloads).

Definition cross_league_out : pydict Aggregator.league :=
  Eval vm_compute in result_of (aggregate cross_league).

Definition unsorted_out : pydict Aggregator.league :=
  Eval vm_compute in result_of (aggregate unsorted_batch).

Definition the_url : url := {| url_org := JStr "1"; url_year := 2025 |}.

(** A match that names a league and no team, between two entries that
    are not matches. *)
Definition league_only : list json :=
  [JStr "junk"; JObj [("league", league_obj (JInt 7) "U12")]; JNull].

Definition league_only_out : pydict Aggregator.league :=
  Eval vm_compute in result_of (aggregate league_only).

(** A team whose id is a dictionary. *)
Definition unhashable_team : list json :=
  [game (league_obj (JInt 5) "U18") tigers
        (team (JObj [("n", JInt 1)]) "Bears" [])].

(** Answers of the API for the fetcher. *)
Definition all_busy : network :=
  script [respond 429 []; respond 503 []; respond 500 []].

Definition not_found : network := script [respond 404 []].

Definition refusing : network := script [].

Definition timing_out : network := fun _ _ => Fails ReqTimeout.

Definition broken : network :=
  fun _ _ => Fails (OtherError "ValueError").

Definition good_then_silence : network := script [respond 200 scenario].

(** Runs of the writer: nothing fails. *)
Definition no_faults : Writer.faults := fun _ => None.

(** A configuration with the two organisations. *)
Definition two_orgs_config : Main.config_file :=
  Main.Holds (JObj two_orgs).

(** A disk without data directory. *)
Definition empty_disk : Writer.disk structure :=
  {| Writer.now := {| Writer.data_dir_exists := false;
                      Writer.file := fun _ => None |};
     Writer.past := [] |}.

End Samples.

(* ================================================================== *)
(** * Properties of the fetcher *)
(* ================================================================== *)

Module FetcherFacts.
Import Fetcher.

Lemma attempt_once_429 net u attempt max_retries w b :
  net (requests w) u = Responds {| status_code := 429; body := b |} ->
  attempt < max_retries ->
  attempt_once net u attempt max_retries w =
    (sleep (RETRY_DELAY * attempt)
       {| requests := S (requests w); events := events w ++ [EvRequest u] |},
     Continue).
Proof.
  intros Hnet Hlt. unfold attempt_once, requests_get. rewrite Hnet. simpl.
  apply Z.ltb_lt in Hlt. now rewrite Hlt.
Qed.

Lemma attempt_once_200 net u attempt max_retries w b :
  net (requests w) u = Responds {| status_code := 200; body := b |} ->
  attempt_once net u attempt max_retries w =
    ({| requests := S (requests w); events := events w ++ [EvRequest u] |},
     Return (Some {| status_code := 200; body := b |})).
Proof.
  intros Hnet. unfold attempt_once, requests_get. now rewrite Hnet.
Qed.

(** C4.  With the default budget of three attempts and the statuses 429,
    429, 200 on successive attempts, the fetcher returns the third
    response; between the requests it sleeps 10 seconds and then 20 seconds
    (RETRY_DELAY times the attempt number), and it does not sleep after the
    successful attempt. *)
Theorem fetch_429_429_200 :
  forall (net : network) (u : url) (w : world) (b1 b2 b3 : option json),
    net (requests w) u = Responds {| status_code := 429; body := b1 |} ->
    net (S (requests w)) u = Responds {| status_code := 429; body := b2 |} ->
    net (S (S (requests w))) u =
      Responds {| status_code := 200; body := b3 |} ->
    fetch_api_with_retry net u MAX_RETRIES w =
      ({| requests := S (S (S (requests w)));
          events := events w ++
                    [EvRequest u; EvSleep 10; EvRequest u; EvSleep 20;
                     EvRequest u] |},
       Ok (Some {| status_code := 200; body := b3 |})).
Proof.
  intros net u w b1 b2 b3 H1 H2 H3.
  unfold fetch_api_with_retry, MAX_RETRIES.
  change (Z.to_nat 3) with 3%nat. cbn [fetch_loop].
  rewrite (attempt_once_429 _ _ _ _ _ b1 H1) by lia.
  rewrite (attempt_once_429 net u (1 + 1) 3 _ b2) by (simpl; auto; lia).
  rewrite (attempt_once_200 net u (1 + 1 + 1) 3 _ b3) by (simpl; auto).
  unfold sleep, RETRY_DELAY. simpl.
  repeat rewrite <- app_assoc. reflexivity.
Qed.

Lemma fetch_429_429_200_witness :
  fetch_api_with_retry
    (Samples.script [Samples.respond 429 []; Samples.respond 429 [];
                     Samples.respond 200 Samples.scenario])
    Samples.the_url MAX_RETRIES Samples.fresh =
  ({| requests := 3;
      events := [EvRequest Samples.the_url; EvSleep 10;
                 EvRequest Samples.the_url; EvSleep 20;
                 EvRequest Samples.the_url] |},
   Ok (Some {| status_code := 200;
               body := Some (JArr Samples.scenario) |})).
Proof.
  apply (fetch_429_429_200
           (Samples.script [Samples.respond 429 []; Samples.respond 429 [];
                            Samples.respond 200 Samples.scenario])
           Samples.the_url Samples.fresh
           (Some (JArr [])) (Some (JArr [])) (Some (JArr Samples.scenario)));
    reflexivity.
Defined.

(** C3, evaluated.  A status such as 201 is none of 200, 429, 503, 404 or
    a server error, and [raise_for_status] does not raise for it: the loop
    goes on to the next attempt at once.  Here the second attempt answers
    200 and its response is returned. *)
Theorem fetch_201_then_200 :
  fetch_api_with_retry
    (Samples.script [Samples.respond 201 []; Samples.respond 200 []])
    Samples.the_url MAX_RETRIES Samples.fresh =
  ({| requests := 2;
      events := [EvRequest Samples.the_url; EvRequest Samples.the_url] |},
   Ok (Some {| status_code := 200; body := Some (JArr []) |})).
Proof. reflexivity. Qed.

(** A client error other than 404 and 429 makes [raise_for_status] raise;
    the fetch ends at once, without a sleep and without a further
    attempt. *)
Lemma client_error_fails_at_once net u w status b max_retries :
  0 < max_retries ->
  net (requests w) u = Responds {| status_code := status; body := b |} ->
  400 <= status < 500 -> status <> 404 -> status <> 429 ->
  fetch_api_with_retry net u max_retries w =
    ({| requests := S (requests w); events := events w ++ [EvRequest u] |},
     Ok None).
Proof.
  intros Hpos Hnet Hrange H404 H429. unfold fetch_api_with_retry.
  destruct (Z.to_nat max_retries) as [ | n] eqn:E; [ lia | ].
  cbn [fetch_loop]. unfold attempt_once, requests_get. rewrite Hnet.
  cbn [status_code]. unfold raise_for_status. cbn [status_code].
  replace (status =? 200) with false by (symmetry; apply Z.eqb_neq; lia).
  replace (status =? 429) with false by (symmetry; apply Z.eqb_neq; lia).
  replace (status =? 503) with false by (symmetry; apply Z.eqb_neq; lia).
  replace (status =? 404) with false by (symmetry; apply Z.eqb_neq; lia).
  replace (status >=? 500) with false by (symmetry; rewrite Z.geb_leb; apply Z.leb_gt; lia).
  replace (400 <=? status) with true by (symmetry; apply Z.leb_le; lia).
  replace (status <? 600) with true by (symmetry; apply Z.ltb_lt; lia).
  reflexivity.
Qed.

(** A status below 400 other than 200 raises nothing: the attempt is spent
    without a sleep and the loop goes on. *)
Lemma other_status_is_retried net u w status b attempt max_retries :
  net (requests w) u = Responds {| status_code := status; body := b |} ->
  status < 400 -> status <> 200 ->
  attempt_once net u attempt max_retries w =
    ({| requests := S (requests w); events := events w ++ [EvRequest u] |},
     Continue).
Proof.
  intros Hnet Hlt H200. unfold attempt_once, requests_get. rewrite Hnet.
  cbn [status_code]. unfold raise_for_status. cbn [status_code].
  replace (status =? 200) with false by (symmetry; apply Z.eqb_neq; lia).
  replace (status =? 429) with false by (symmetry; apply Z.eqb_neq; lia).
  replace (status =? 503) with false by (symmetry; apply Z.eqb_neq; lia).
  replace (status =? 404) with false by (symmetry; apply Z.eqb_neq; lia).
  replace (status >=? 500) with false by (symmetry; rewrite Z.geb_leb; apply Z.leb_gt; lia).
  replace (400 <=? status) with false by (symmetry; apply Z.leb_gt; lia).
  reflexivity.
Qed.

End FetcherFacts.
(* ================================================================== *)
(** * Properties of the Python operations *)
(* ================================================================== *)

Module PyFacts.
Import Invariants.

Lemma key_eqb_eq (a b : key) : key_eqb a b = true <-> a = b.
Proof.
  destruct a, b; simpl; split; intros H; try discriminate; try reflexivity.
  - apply Z.eqb_eq in H. now subst.
  - inversion H. apply Z.eqb_refl.
  - apply String.eqb_eq in H. now subst.
  - inversion H. apply String.eqb_refl.
Qed.

Lemma key_eqb_refl (a : key) : key_eqb a a = true.
Proof. now apply key_eqb_eq. Qed.

Lemma key_eqb_neq (a b : key) : key_eqb a b = false <-> a <> b.
Proof.
  split; intros H.
  - intros E. apply key_eqb_eq in E. congruence.
  - destruct (key_eqb a b) eqn:E; [ | reflexivity ].
    apply key_eqb_eq in E. contradiction.
Qed.

Lemma is_key_iff (k : key) (kj : json) :
  is_key k kj = true <-> pykey kj = Some k.
Proof.
  unfold is_key. destruct (pykey kj) as [k' | ].
  - rewrite key_eqb_eq. split; congruence.
  - split; discriminate.
Qed.

Lemma is_key_false (k : key) (kj : json) :
  is_key k kj = false <-> pykey kj <> Some k.
Proof.
  rewrite <- is_key_iff. destruct (is_key k kj); split; congruence.
Qed.

Section DictFacts.
Context {V : Type}.
Implicit Types (d : pydict V) (k : key) (kj : json) (v : V).

Lemma dict_find_put k kj v d k' :
  pykey kj = Some k ->
  dict_find k' (dict_put k kj v d) =
    if key_eqb k k' then Some v else dict_find k' d.
Proof.
  intros Hk. induction d as [ | [kj0 v0] d IH]; simpl.
  - destruct (key_eqb k k') eqn:E.
    + apply key_eqb_eq in E. subst k'.
      apply is_key_iff in Hk. now rewrite Hk.
    + apply key_eqb_neq in E.
      destruct (is_key k' kj) eqn:E'; [ | reflexivity ].
      apply is_key_iff in E'. congruence.
  - destruct (is_key k kj0) eqn:E0; simpl.
    + apply is_key_iff in E0.
      destruct (key_eqb k k') eqn:E.
      * apply key_eqb_eq in E. subst k'.
        apply is_key_iff in E0. now rewrite E0.
      * apply key_eqb_neq in E.
        destruct (is_key k' kj0) eqn:E'; [ | reflexivity ].
        apply is_key_iff in E'. congruence.
    + rewrite IH. destruct (is_key k' kj0) eqn:E'; [ | reflexivity ].
      destruct (key_eqb k k') eqn:E; [ | reflexivity ].
      apply key_eqb_eq in E. subst k'. congruence.
Qed.

Lemma dict_find_In k d v :
  dict_find k d = Some v -> exists kj, In (kj, v) d /\ pykey kj = Some k.
Proof.
  induction d as [ | [kj0 v0] d IH]; simpl; [ discriminate | ].
  destruct (is_key k kj0) eqn:E.
  - intros H. inversion H; subst. exists kj0. split; [ now left | ].
    now apply is_key_iff.
  - intros H. destruct (IH H) as (kj & Hin & Hk). exists kj. auto.
Qed.

Lemma dict_find_None k d :
  dict_find k d = None -> ~ In (Some k) (dict_keys d).
Proof.
  induction d as [ | [kj0 v0] d IH]; simpl; [ tauto | ].
  destruct (is_key k kj0) eqn:E; [ discriminate | ].
  intros H [Hk | Hin]; [ | now apply IH ].
  apply is_key_false in E. contradiction.
Qed.

Lemma In_dict_keys kj v d : In (kj, v) d -> In (pykey kj) (dict_keys d).
Proof.
  intros H. unfold dict_keys.
  change (pykey kj) with ((fun p : json * V => pykey (fst p)) (kj, v)).
  now apply in_map.
Qed.

Lemma In_dict_find k kj v d :
  dict_wf d -> In (kj, v) d -> pykey kj = Some k -> dict_find k d = Some v.
Proof.
  intros [Hnd _]. induction d as [ | [kj0 v0] d IH]; simpl; [ tauto | ].
  intros Hin Hk. simpl in Hnd. inversion Hnd as [ | ? ? Hnotin Hnd']; subst.
  destruct Hin as [Heq | Hin].
  - inversion Heq; subst. apply is_key_iff in Hk. now rewrite Hk.
  - destruct (is_key k kj0) eqn:E.
    + apply is_key_iff in E. exfalso. apply Hnotin. rewrite E, <- Hk.
      eapply In_dict_keys; eauto.
    + now apply IH.
Qed.

Lemma dict_put_In k kj v d kj' v' :
  pykey kj = Some k ->
  In (kj', v') (dict_put k kj v d) ->
  In (kj', v') d \/
  (v' = v /\ pykey kj' = Some k /\
   ((dict_find k d = None /\ kj' = kj) \/ exists v0, In (kj', v0) d)).
Proof.
  intros Hk. induction d as [ | [kj0 v0] d IH]; simpl.
  - intros [H | []]. inversion H; subst. right. auto.
  - destruct (is_key k kj0) eqn:E; simpl.
    + apply is_key_iff in E. intros [H | H].
      * inversion H; subst. right. repeat split; auto.
        right. exists v0. now left.
      * left. now right.
    + intros [H | H].
      * left. now left.
      * destruct (IH H) as [Hin | (-> & Hk' & [[Hf ->] | [v1 Hin]])].
        -- left; now right.
        -- right. auto.
        -- right. repeat split; auto. right. exists v1. now right.
Qed.

Lemma dict_put_keys k kj v d :
  pykey kj = Some k ->
  dict_keys (dict_put k kj v d) =
    match dict_find k d with
    | Some _ => dict_keys d
    | None => dict_keys d ++ [Some k]
    end.
Proof.
  intros Hk. induction d as [ | [kj0 v0] d IH]; simpl.
  - now rewrite Hk.
  - destruct (is_key k kj0) eqn:E; simpl; [ reflexivity | ].
    rewrite IH. now destruct (dict_find k d).
Qed.

Lemma dict_put_wf k kj v d :
  pykey kj = Some k -> dict_wf d -> dict_wf (dict_put k kj v d).
Proof.
  intros Hk [Hnd Hsome]. unfold dict_wf. rewrite (dict_put_keys _ _ _ _ Hk).
  destruct (dict_find k d) eqn:E; [ now split | ].
  apply dict_find_None in E. split.
  - apply NoDup_app_remove_l with (l := []). simpl.
    apply Permutation_NoDup with (l := Some k :: dict_keys d).
    + apply Permutation_cons_append.
    + now constructor.
  - rewrite in_app_iff. intros [H | [H | []]]; [ auto | discriminate ].
Qed.

Lemma dict_wf_nil : dict_wf (@nil (json * V)).
Proof. split; [ constructor | simpl; tauto ]. Qed.

End DictFacts.

(** ** The order of the sort *)

Lemma ascii_compare_lt_trans (a b c : Ascii.ascii) :
  Ascii.compare a b = Lt -> Ascii.compare b c = Lt -> Ascii.compare a c = Lt.
Proof.
  unfold Ascii.compare. rewrite !N.compare_lt_iff. apply N.lt_trans.
Qed.

Lemma string_compare_lt_trans (s t u : string) :
  String.compare s t = Lt -> String.compare t u = Lt ->
  String.compare s u = Lt.
Proof.
  revert t u. induction s as [ | a s IH]; intros [ | b t] [ | c u]; simpl;
    try discriminate; try reflexivity.
  destruct (Ascii.compare a b) eqn:Eab; try discriminate;
    destruct (Ascii.compare b c) eqn:Ebc; try discriminate; intros H1 H2.
  - apply Ascii.compare_eq_iff in Eab, Ebc. subst.
    unfold Ascii.compare at 1. rewrite N.compare_refl. eauto.
  - apply Ascii.compare_eq_iff in Eab. subst. now rewrite Ebc.
  - apply Ascii.compare_eq_iff in Ebc. subst. now rewrite Eab.
  - now rewrite (ascii_compare_lt_trans _ _ _ Eab Ebc).
Qed.

Lemma string_ltb_trans (s t u : string) :
  String.ltb s t = true -> String.ltb t u = true -> String.ltb s u = true.
Proof.
  unfold String.ltb. intros H1 H2.
  destruct (String.compare s t) eqn:E1; try discriminate.
  destruct (String.compare t u) eqn:E2; try discriminate.
  now rewrite (string_compare_lt_trans _ _ _ E1 E2).
Qed.

Lemma string_ltb_total (s t : string) :
  String.ltb s t = false -> s <> t -> String.ltb t s = true.
Proof.
  unfold String.ltb. rewrite (String.compare_antisym t s).
  destruct (String.compare s t) eqn:E; simpl; try discriminate; auto.
  intros _ Hne. apply String.compare_eq_iff in E. contradiction.
Qed.

(** When [<] answers, both operands are numbers or both are strings. *)
Lemma py_lt_cases (a b : json) (r : bool) :
  py_lt a b = Ok r <->
  a <> JNull /\ b <> JNull /\
  ((exists n m, pykey a = Some (KInt n) /\ pykey b = Some (KInt m) /\
                r = (n <? m)) \/
   (exists s t, a = JStr s /\ b = JStr t /\ r = String.ltb s t)).
Proof.
  split.
  - destruct a, b; simpl; try discriminate; intros H; inversion H; subst;
      (split; [ discriminate | split; [ discriminate | ] ]);
      try (left; do 2 eexists; repeat split; reflexivity).
    right. do 2 eexists. repeat split.
  - intros (Na & Nb & [(n & m & Ha & Hb & ->) | (s & t & -> & -> & ->)]);
      [ | reflexivity ].
    destruct a, b; simpl in *; try discriminate; try congruence;
      inversion Ha; inversion Hb; subst; reflexivity.
Qed.

Lemma py_lt_trans (a b c : json) :
  py_lt a b = Ok true -> py_lt b c = Ok true -> py_lt a c = Ok true.
Proof.
  rewrite !py_lt_cases.
  intros (Na & Nb & Hab) (_ & Nc & Hbc). repeat split; auto.
  destruct Hab as [(n & m & Ha & Hb & E) | (s & t & -> & -> & E)];
    destruct Hbc as [(n' & m' & Hb' & Hc & E') | (s' & t' & Eb & -> & E')];
    try (subst; simpl in *; discriminate).
  - left. exists n, m'. repeat split; auto.
    rewrite Hb in Hb'. inversion Hb'; subst.
    symmetry. apply Z.ltb_lt. symmetry in E, E'. apply Z.ltb_lt in E, E'. lia.
  - right. inversion Eb; subst. exists s, t'. repeat split.
    symmetry. eapply string_ltb_trans; eauto.
Qed.

Lemma py_lt_total (a b : json) :
  py_lt a b = Ok false -> pykey a <> pykey b -> py_lt b a = Ok true.
Proof.
  rewrite !py_lt_cases.
  intros (Na & Nb & Hab) Hne. repeat split; auto.
  destruct Hab as [(n & m & Ha & Hb & E) | (s & t & -> & -> & E)].
  - left. exists m, n. repeat split; auto.
    symmetry. apply Z.ltb_lt. symmetry in E. apply Z.ltb_ge in E.
    assert (n <> m) by congruence. lia.
  - right. exists t, s. repeat split.
    symmetry. apply string_ltb_total; auto. simpl in Hne. congruence.
Qed.

(** ** [list.sort] *)

Section SortFacts.
Context {A : Type} (keyf : A -> json).

Lemma insert_sorted_perm (x : A) (l r : list A) :
  insert_sorted keyf x l = Ok r -> Permutation (x :: l) r.
Proof.
  revert r. induction l as [ | y l IH]; simpl; intros r H.
  - inversion H. apply Permutation_refl.
  - destruct (py_lt (keyf y) (keyf x)) as [[ | ] | e]; simpl in H;
      try discriminate.
    + destruct (insert_sorted keyf x l) as [r' | e]; simpl in H;
        try discriminate.
      inversion H; subst. eapply perm_trans; [ apply perm_swap | ].
      apply perm_skip. now apply IH.
    + inversion H. apply Permutation_refl.
Qed.

Lemma list_sort_perm (l s : list A) :
  list_sort keyf l = Ok s -> Permutation l s.
Proof.
  revert s. induction l as [ | x l IH]; simpl; intros s H.
  - inversion H. constructor.
  - destruct (list_sort keyf l) as [s' | e]; simpl in H; try discriminate.
    eapply perm_trans; [ apply perm_skip, IH; reflexivity | ].
    now apply insert_sorted_perm.
Qed.

Lemma insert_sorted_sorted (x : A) (l r : list A) :
  StronglySorted (fun a b => py_lt (keyf a) (keyf b) = Ok true) l ->
  Forall (fun y => pykey (keyf y) <> pykey (keyf x)) l ->
  insert_sorted keyf x l = Ok r ->
  StronglySorted (fun a b => py_lt (keyf a) (keyf b) = Ok true) r.
Proof.
  revert r. induction l as [ | y l IH]; simpl; intros r Hs Hd H.
  - inversion H. repeat constructor.
  - inversion Hs as [ | ? ? Hs' Hy]; subst.
    inversion Hd as [ | ? ? Hyx Hd']; subst.
    destruct (py_lt (keyf y) (keyf x)) as [[ | ] | e] eqn:E; simpl in H;
      try discriminate.
    + destruct (insert_sorted keyf x l) as [r' | e] eqn:E'; simpl in H;
        try discriminate.
      inversion H; subst. constructor.
      * now apply IH.
      * apply insert_sorted_perm in E'.
        eapply Permutation_Forall; [ exact E' | ]. now constructor.
    + inversion H; subst. apply py_lt_total in E; [ | exact Hyx ].
      constructor; [ now constructor | ].
      constructor; [ exact E | ].
      eapply Forall_impl; [ | exact Hy ].
      intros z Hz. simpl in Hz. eapply py_lt_trans; eauto.
Qed.

Lemma list_sort_sorted (l s : list A) :
  NoDup (map (fun a => pykey (keyf a)) l) ->
  list_sort keyf l = Ok s ->
  StronglySorted (fun a b => py_lt (keyf a) (keyf b) = Ok true) s.
Proof.
  revert s. induction l as [ | x l IH]; simpl; intros s Hnd H.
  - inversion H. constructor.
  - inversion Hnd as [ | ? ? Hx Hnd']; subst.
    destruct (list_sort keyf l) as [s' | e] eqn:E; simpl in H;
      try discriminate.
    eapply insert_sorted_sorted; [ now apply IH | | exact H ].
    apply list_sort_perm in E.
    eapply Permutation_Forall; [ exact E | ].
    apply Forall_forall. intros y Hy Heq. apply Hx. rewrite <- Heq.
    apply (in_map (fun a => pykey (keyf a))). exact Hy.
Qed.

End SortFacts.

End PyFacts.

(* ================================================================== *)
(** * Properties of the aggregator *)
(* ================================================================== *)

Module AggregatorFacts.
Import Aggregator Invariants Batch PyFacts.

(** ** The record of one team object *)

Lemma team_data_eq (team : json) :
  team_data team =
    JObj ([("id", get "id" team); ("name", get "name" team)] ++
          match clubs_list (get "clubs" team) with
          | [] => []
          | [club] => [("club", club)]
          | cl => [("clubs", JArr cl)]
          end).
Proof.
  unfold team_data.
  destruct (truthy (get "clubs" team) && is_list (get "clubs" team) &&
            (len (get "clubs" team) >? 0)) eqn:E.
  - destruct (clubs_list (get "clubs" team)) as [ | c [ | c' cl]];
      reflexivity.
  - unfold clubs_list.
    destruct (get "clubs" team) as [ | | | | [ | x l] | ]; try reflexivity.
    discriminate E.
Qed.

Lemma get_id_team_data (team : json) :
  get "id" (team_data team) = get "id" team.
Proof. now rewrite team_data_eq. Qed.

Lemma sort_key_team_data (team : json) :
  sort_key (team_data team) = get "id" team.
Proof. now rewrite team_data_eq. Qed.

Lemma club_fields_team_data (team : json) :
  club_fields (clubs_list (get "clubs" team)) (team_data team).
Proof.
  rewrite team_data_eq.
  destruct (clubs_list (get "clubs" team)) as [ | c [ | c' cl]];
    simpl; repeat split; reflexivity.
Qed.

(** ** One side of a match *)

Lemma ingest_side_eq (league_id entry : json) (d : pydict league_acc) :
  ingest_side league_id entry d =
    match side_team entry with
    | None => Ok d
    | Some team =>
        la <- dict_getitem league_id d ;;
        teams <- dict_setitem (get "id" team) (team_data team)
                   (la_teams la) ;;
        dict_setitem league_id (set_teams la teams) d
    end.
Proof.
  unfold ingest_side, side_team.
  destruct (truthy entry && is_dict entry); [ | reflexivity ].
  destruct (truthy (get "team" entry) && is_dict (get "team" entry));
    [ | reflexivity ].
  simpl. now destruct (truthy (get "id" (get "team" entry))).
Qed.

Lemma ingest_side_ok league_id lk entry d d' la :
  pykey league_id = Some lk ->
  dict_find lk d = Some la ->
  ingest_side league_id entry d = Ok d' ->
  match side_team entry with
  | None => d' = d
  | Some team =>
      exists tk, pykey (get "id" team) = Some tk /\
                 d' = write_team lk league_id la tk team d
  end.
Proof.
  intros Hk Hf. rewrite ingest_side_eq.
  destruct (side_team entry) as [team | ]; [ | now inversion 1 ].
  unfold dict_getitem, dict_setitem. rewrite Hk, Hf. simpl.
  destruct (pykey (get "id" team)) as [tk | ]; simpl; [ | discriminate ].
  inversion 1. now exists tk.
Qed.

(** ** The effect of writing a team record *)

Section WriteTeam.
Variables (lk0 tk0 : key) (league_id team : json) (la0 : league_acc).
Variable d : pydict league_acc.
Hypothesis Hlid : pykey league_id = Some lk0.
Hypothesis Htid : pykey (get "id" team) = Some tk0.
Hypothesis Hla : dict_find lk0 d = Some la0.

Lemma write_team_find_team lk tk :
  find_team lk tk (write_team lk0 league_id la0 tk0 team d) =
    if key_eqb lk0 lk && key_eqb tk0 tk then Some (team_data team)
    else find_team lk tk d.
Proof.
  unfold find_team, write_team. rewrite (dict_find_put _ _ _ _ _ Hlid).
  destruct (key_eqb lk0 lk) eqn:E; simpl; [ | reflexivity ].
  apply key_eqb_eq in E. subst lk. rewrite Hla.
  rewrite (dict_find_put _ _ _ _ _ Htid). reflexivity.
Qed.

Lemma write_team_find_head lk :
  find_head lk (write_team lk0 league_id la0 tk0 team d) = find_head lk d.
Proof.
  unfold find_head, write_team. rewrite (dict_find_put _ _ _ _ _ Hlid).
  destruct (key_eqb lk0 lk) eqn:E; simpl; [ | reflexivity ].
  apply key_eqb_eq in E. subst lk. now rewrite Hla.
Qed.

Lemma write_team_find lk0' :
  dict_find lk0' (write_team lk0 league_id la0 tk0 team d) <> None <->
  dict_find lk0' d <> None.
Proof.
  unfold write_team. rewrite (dict_find_put _ _ _ _ _ Hlid).
  destruct (key_eqb lk0 lk0') eqn:E; [ | tauto ].
  apply key_eqb_eq in E. subst lk0'. rewrite Hla. split; discriminate.
Qed.

Lemma write_team_ok :
  acc_ok d -> acc_ok (write_team lk0 league_id la0 tk0 team d).
Proof.
  intros [Hwf Hall]. unfold write_team. split.
  - now apply dict_put_wf.
  - intros kj la Hin. apply (dict_put_In _ _ _ _ _ _ Hlid) in Hin.
    destruct Hin as [Hin | (-> & Hkj & Hor)]; [ now apply Hall | ].
    assert (Hin0 : In (kj, la0) d).
    { destruct Hor as [[Hnone _] | [v0 Hin]]; [ congruence | ].
      pose proof (In_dict_find _ _ _ _ Hwf Hin Hkj) as Hf.
      rewrite Hla in Hf. now inversion Hf; subst. }
    destruct (Hall _ _ Hin0) as [Hid [Hwft Hteams]]. simpl. split; [ exact Hid | ].
    split.
    + now apply dict_put_wf.
    + intros kj' r Hin'. apply (dict_put_In _ _ _ _ _ _ Htid) in Hin'.
      destruct Hin' as [Hin' | (-> & Hkj' & _)]; [ now apply Hteams | ].
      exists team. split; [ reflexivity | congruence ].
Qed.

End WriteTeam.

(** ** Last and first elements *)

Lemma last_opt_cons {A} (a : A) (l : list A) :
  last_opt (a :: l) =
    match last_opt l with Some x => Some x | None => Some a end.
Proof.
  unfold last_opt. revert a. induction l as [ | b l IH]; intros a.
  - reflexivity.
  - change (last (map Some (a :: b :: l)) None)
      with (last (map Some (b :: l)) None).
    rewrite (IH b). now destruct (last (map Some l) None).
Qed.

Lemma last_opt_app {A} (l1 l2 : list A) :
  last_opt (l1 ++ l2) =
    match last_opt l2 with Some x => Some x | None => last_opt l1 end.
Proof.
  induction l1 as [ | a l1 IH]; simpl.
  - now destruct (last_opt l2).
  - rewrite !last_opt_cons, IH. now destruct (last_opt l2).
Qed.

Lemma hd_error_app {A} (l1 l2 : list A) :
  hd_error (l1 ++ l2) =
    match hd_error l1 with Some x => Some x | None => hd_error l2 end.
Proof. now destruct l1. Qed.

(** ** One match *)

Lemma ingest_side_effect league_id lk0 entry d d' :
  pykey league_id = Some lk0 ->
  dict_find lk0 d <> None ->
  acc_ok d ->
  ingest_side league_id entry d = Ok d' ->
  acc_ok d' /\ dict_find lk0 d' <> None /\
  (forall lk, find_head lk d' = find_head lk d) /\
  (forall lk tk,
     find_team lk tk d' =
       match last_opt
               (if is_key lk league_id
                then filter (fun team => is_key tk (get "id" team))
                       (opt_list (side_team entry))
                else []) with
       | Some team => Some (team_data team)
       | None => find_team lk tk d
       end).
Proof.
  intros Hk Hsome Hok H.
  destruct (dict_find lk0 d) as [la | ] eqn:Hla; [ clear Hsome | congruence ].
  pose proof (ingest_side_ok _ _ _ _ _ _ Hk Hla H) as Hd'.
  destruct (side_team entry) as [team | ].
  - destruct Hd' as (tk0 & Htk & ->). split; [ | split; [ | split ] ].
    + now apply write_team_ok.
    + apply write_team_find; auto. congruence.
    + intros lk. now apply write_team_find_head.
    + intros lk tk. rewrite write_team_find_team by assumption.
      unfold is_key at 1. rewrite Hk. simpl.
      destruct (key_eqb lk0 lk); simpl; [ | reflexivity ].
      unfold is_key. rewrite Htk. now destruct (key_eqb tk0 tk).
  - subst d'. split; [ exact Hok | split; [ congruence | split ] ].
    + reflexivity.
    + intros lk tk. simpl. now destruct (is_key lk league_id).
Qed.

Lemma process_match_eq (d : pydict league_acc) (m : json) :
  process_match d m =
    match match_league m with
    | None => Ok d
    | Some league =>
        let league_id := get "id" league in
        d <- (present <- dict_contains league_id d ;;
              if negb present
              then dict_setitem league_id
                     {| la_id := league_id; la_name := get "name" league;
                        la_teams := [] |} d
              else Ok d) ;;
        d <- ingest_side league_id (get "home_league_entry" m) d ;;
        ingest_side league_id (get "away_league_entry" m) d
    end.
Proof.
  unfold process_match, match_league.
  destruct (is_dict m); simpl; [ | reflexivity ].
  destruct (truthy (get "league" m) && is_dict (get "league" m)); simpl;
    [ | reflexivity ].
  destruct (truthy (get "id" (get "league" m))); [ | reflexivity ].
  now destruct (dict_contains (get "id" (get "league" m)) d).
Qed.

(** Lines 195-200: the league entry is created on first sight only. *)
Lemma ensure_league_effect league_id lk0 name d d1 :
  pykey league_id = Some lk0 ->
  acc_ok d ->
  (present <- dict_contains league_id d ;;
   if negb present
   then dict_setitem league_id
          {| la_id := league_id; la_name := name; la_teams := [] |} d
   else Ok d) = Ok d1 ->
  acc_ok d1 /\ dict_find lk0 d1 <> None /\
  (forall lk tk, find_team lk tk d1 = find_team lk tk d) /\
  (forall lk, find_head lk d1 =
     match find_head lk d with
     | Some h => Some h
     | None => if is_key lk league_id then Some (league_id, name) else None
     end).
Proof.
  intros Hk [Hwf Hall]. unfold dict_contains, dict_setitem. rewrite Hk. simpl.
  destruct (dict_find lk0 d) as [la | ] eqn:Hla; simpl; intros H;
    injection H as <-.
  - split; [ now split | split; [ congruence | split; [ reflexivity | ] ] ].
    intros lk. unfold find_head.
    destruct (dict_find lk d) as [la' | ] eqn:E; [ reflexivity | ].
    destruct (is_key lk league_id) eqn:E'; [ | reflexivity ].
    apply is_key_iff in E'. congruence.
  - split; [ split | split; [ | split ] ].
    + now apply dict_put_wf.
    + intros kj la Hin. apply (dict_put_In _ _ _ _ _ _ Hk) in Hin.
      destruct Hin as [Hin | (-> & Hkj & Hor)]; [ now apply Hall | ].
      destruct Hor as [[_ ->] | [v0 Hin]].
      * simpl. split; [ reflexivity | ].
        split; [ apply dict_wf_nil | intros ? ? [] ].
      * pose proof (In_dict_find _ _ _ _ Hwf Hin Hkj). congruence.
    + rewrite (dict_find_put _ _ _ _ _ Hk), key_eqb_refl. discriminate.
    + intros lk tk. unfold find_team. rewrite (dict_find_put _ _ _ _ _ Hk).
      destruct (key_eqb lk0 lk) eqn:E; [ | reflexivity ].
      apply key_eqb_eq in E. subst lk. now rewrite Hla.
    + intros lk. unfold find_head. rewrite (dict_find_put _ _ _ _ _ Hk).
      unfold is_key. rewrite Hk.
      destruct (key_eqb lk0 lk) eqn:E; simpl.
      * apply key_eqb_eq in E. subst lk. now rewrite Hla.
      * now destruct (dict_find lk d).
Qed.

Lemma process_match_ok (d d' : pydict league_acc) (m : json) :
  acc_ok d ->
  process_match d m = Ok d' ->
  acc_ok d' /\
  (forall lk tk,
     find_team lk tk d' =
       match last_opt (occurrences_in lk tk m) with
       | Some team => Some (team_data team)
       | None => find_team lk tk d
       end) /\
  (forall lk,
     find_head lk d' =
       match find_head lk d with
       | Some h => Some h
       | None =>
           match match_league m with
           | Some league =>
               if is_key lk (get "id" league)
               then Some (get "id" league, get "name" league) else None
           | None => None
           end
       end).
Proof.
  intros Hok. rewrite process_match_eq. unfold occurrences_in.
  destruct (match_league m) as [league | ].
  - cbv zeta. set (league_id := get "id" league).
    destruct (pykey league_id) as [lk0 | ] eqn:Hk;
      [ | unfold dict_contains; rewrite Hk; discriminate ].
    destruct (present <- dict_contains league_id d ;;
              if negb present
              then dict_setitem league_id
                     {| la_id := league_id; la_name := get "name" league;
                        la_teams := [] |} d
              else Ok d) as [d1 | e] eqn:E1'; simpl; [ | discriminate ].
    destruct (ensure_league_effect _ _ _ _ _ Hk Hok E1')
      as (Hok1 & Hs1 & Ht1 & Hh1).
    destruct (ingest_side league_id (get "home_league_entry" m) d1)
      as [d2 | e] eqn:E2; [ | discriminate ].
    destruct (ingest_side_effect _ _ _ _ _ Hk Hs1 Hok1 E2)
      as (Hok2 & Hs2 & Hh2 & Ht2).
    intros E3.
    destruct (ingest_side_effect _ _ _ _ _ Hk Hs2 Hok2 E3)
      as (Hok3 & Hs3 & Hh3 & Ht3).
    split; [ exact Hok3 | split ].
    + intros lk tk. rewrite Ht3, Ht2, Ht1. unfold match_teams.
      destruct (is_key lk league_id); [ | reflexivity ].
      rewrite filter_app, last_opt_app.
      now destruct (last_opt
                      (filter (fun team => is_key tk (get "id" team))
                         (opt_list
                            (side_team (get "away_league_entry" m))))).
    + intros lk. now rewrite Hh3, Hh2, Hh1.
  - inversion 1; subst. split; [ exact Hok | split ].
    + reflexivity.
    + intros lk. now destruct (find_head lk d').
Qed.

(** ** The whole batch *)

Lemma acc_ok_nil : acc_ok [].
Proof. split; [ apply dict_wf_nil | intros ? ? [] ]. Qed.

Lemma match_loop_ok (matches : list json) (d d' : pydict league_acc) :
  acc_ok d ->
  match_loop d matches = Ok d' ->
  acc_ok d' /\
  (forall lk tk,
     find_team lk tk d' =
       match last_occurrence lk tk matches with
       | Some team => Some (team_data team)
       | None => find_team lk tk d
       end) /\
  (forall lk,
     find_head lk d' =
       match find_head lk d with
       | Some h => Some h
       | None =>
           match first_mention lk matches with
           | Some league => Some (get "id" league, get "name" league)
           | None => None
           end
       end).
Proof.
  revert d. induction matches as [ | m matches IH]; simpl; intros d Hok H.
  - inversion H; subst. split; [ exact Hok | split ].
    + reflexivity.
    + intros lk. now destruct (find_head lk d').
  - destruct (process_match d m) as [d1 | e] eqn:E; simpl in H;
      [ | discriminate ].
    destruct (process_match_ok _ _ _ Hok E) as (Hok1 & Ht1 & Hh1).
    destruct (IH _ Hok1 H) as (Hok' & Ht & Hh).
    split; [ exact Hok' | split ].
    + intros lk tk. rewrite Ht, Ht1.
      unfold last_occurrence, occurrences. simpl. rewrite last_opt_app.
      now destruct (last_opt (flat_map (occurrences_in lk tk) matches)).
    + intros lk. rewrite Hh, Hh1.
      unfold first_mention, mentions. simpl. rewrite hd_error_app.
      destruct (find_head lk d); [ reflexivity | ].
      destruct (match_league m) as [league | ]; [ | reflexivity ].
      now destruct (is_key lk (get "id" league)).
Qed.

(** ** The final conversion of the team dictionaries *)

Lemma finish_In d out kj L :
  finish d = Ok out -> In (kj, L) out ->
  exists la, In (kj, la) d /\ finish_league la = Ok L.
Proof.
  revert out. induction d as [ | [kj0 la0] d IH]; simpl; intros out H Hin.
  - injection H as <-. destruct Hin.
  - destruct (finish_league la0) as [l0 | e] eqn:E0; simpl in H;
      [ | discriminate ].
    destruct (finish d) as [r | e]; simpl in H; [ | discriminate ].
    injection H as <-. destruct Hin as [Heq | Hin].
    + inversion Heq; subst. exists la0. split; [ now left | exact E0 ].
    + destruct (IH _ eq_refl Hin) as (la & Hla & Hf).
      exists la. split; [ now right | exact Hf ].
Qed.

Lemma finish_In_rev d out kj la :
  finish d = Ok out -> In (kj, la) d ->
  exists L, In (kj, L) out /\ finish_league la = Ok L.
Proof.
  revert out. induction d as [ | [kj0 la0] d IH]; simpl; intros out H Hin.
  - destruct Hin.
  - destruct (finish_league la0) as [l0 | e] eqn:E0; simpl in H;
      [ | discriminate ].
    destruct (finish d) as [r | e]; simpl in H; [ | discriminate ].
    injection H as <-. destruct Hin as [Heq | Hin].
    + inversion Heq; subst. exists l0. split; [ now left | exact E0 ].
    + destruct (IH _ eq_refl Hin) as (L & HL & Hf).
      exists L. split; [ now right | exact Hf ].
Qed.

Lemma finish_league_inv la L :
  finish_league la = Ok L ->
  l_id L = la_id la /\ l_name L = la_name la /\
  list_sort sort_key (dict_values (la_teams la)) = Ok (l_teams L).
Proof.
  unfold finish_league.
  destruct (list_sort sort_key (dict_values (la_teams la))) as [s | e];
    simpl; [ | discriminate ].
  intros H. injection H as <-. auto.
Qed.

Lemma wf_key_some {V} (d : pydict V) kj v :
  dict_wf d -> In (kj, v) d -> exists k, pykey kj = Some k.
Proof.
  intros [_ Hsome] Hin. apply In_dict_keys in Hin.
  destruct (pykey kj) as [k | ]; [ now exists k | contradiction ].
Qed.

Lemma teams_sort_keys teams :
  teams_ok teams ->
  map (fun r => pykey (sort_key r)) (dict_values teams) = dict_keys teams.
Proof.
  intros [_ Hall]. unfold dict_values, dict_keys. rewrite map_map.
  apply map_ext_in. intros [kj r] Hin. simpl.
  destruct (Hall _ _ Hin) as (team & -> & Hk).
  now rewrite sort_key_team_data.
Qed.

(** What the aggregation has stored for a league of its result. *)
Lemma aggregate_league matches out kj L :
  aggregate matches = Ok out -> In (kj, L) out ->
  exists d la lk,
    match_loop [] matches = Ok d /\ acc_ok d /\
    pykey kj = Some lk /\ dict_find lk d = Some la /\
    la_id la = kj /\ finish_league la = Ok L.
Proof.
  unfold aggregate. destruct (match_loop [] matches) as [d | e] eqn:E; simpl;
    [ | discriminate ].
  intros Hf Hin. destruct (finish_In _ _ _ _ Hf Hin) as (la & Hla & HL).
  destruct (match_loop_ok _ _ _ acc_ok_nil E) as (Hok & _).
  assert (Hok' := Hok). destruct Hok' as [Hwf Hall].
  destruct (wf_key_some _ _ _ Hwf Hla) as [lk Hk].
  exists d, la, lk.
  split; [ reflexivity | split; [ exact Hok | split; [ exact Hk | ] ] ].
  split; [ now apply (In_dict_find lk kj) | ].
  split; [ now apply Hall | exact HL ].
Qed.

(** Every record of the result is the record of the last occurrence of
    its team in its league. *)
Lemma record_origin matches out kj lk L r :
  aggregate matches = Ok out -> In (kj, L) out -> pykey kj = Some lk ->
  In r (l_teams L) ->
  exists tk team,
    pykey (get "id" r) = Some tk /\
    last_occurrence lk tk matches = Some team /\ r = team_data team.
Proof.
  intros Hagg Hin Hk Hr.
  destruct (aggregate_league _ _ _ _ Hagg Hin)
    as (d & la & lk' & Hloop & Hok & Hk' & Hla & _ & HL).
  assert (lk' = lk) by congruence. subst lk'.
  destruct (match_loop_ok _ _ _ acc_ok_nil Hloop) as (_ & Ht & _).
  apply finish_league_inv in HL. destruct HL as (_ & _ & Hsort).
  apply list_sort_perm in Hsort.
  apply (Permutation_in _ (Permutation_sym Hsort)) in Hr.
  unfold dict_values in Hr. apply in_map_iff in Hr.
  destruct Hr as ([kj' r'] & Heq & Hin'). simpl in Heq. subst r'.
  destruct (dict_find_In _ _ _ Hla) as (kj0 & Hin0 & _).
  destruct Hok as [_ Hall]. destruct (Hall _ _ Hin0) as [_ [Hwft Hteams]].
  destruct (Hteams _ _ Hin') as (team' & Hr & Hkt).
  destruct (wf_key_some _ _ _ Hwft Hin') as [tk Htk].
  pose proof (In_dict_find _ _ _ _ Hwft Hin' Htk) as Hfind.
  specialize (Ht lk tk). unfold find_team at 1 in Ht.
  rewrite Hla, Hfind in Ht.
  destruct (last_occurrence lk tk matches) as [team | ] eqn:Hlast;
    [ | discriminate ].
  exists tk, team. split; [ | split; [ exact Hlast | congruence ] ].
  rewrite Hr, get_id_team_data. congruence.
Qed.

End AggregatorFacts.

(* ================================================================== *)
(** * The aggregation returns on integer ids *)
(* ================================================================== *)

Module AggregatorReturns.
Import Aggregator Invariants Batch PyFacts AggregatorFacts.

Lemma insert_sorted_returns {A} (keyf : A -> json) (x : A) (l : list A) :
  Forall (fun y => exists n, keyf y = JInt n) (x :: l) ->
  exists r, insert_sorted keyf x l = Ok r.
Proof.
  intros H. inversion H as [ | ? ? [n Hx] Hl]; subst. clear H.
  induction l as [ | y l IH]; simpl; [ now eexists | ].
  inversion Hl as [ | ? ? [m Hy] Hl']; subst.
  rewrite Hx, Hy. simpl. destruct (m <? n); [ | now eexists ].
  destruct (IH Hl') as [r Hr]. rewrite Hr. simpl. now eexists.
Qed.

Lemma list_sort_returns {A} (keyf : A -> json) (l : list A) :
  Forall (fun y => exists n, keyf y = JInt n) l ->
  exists s, list_sort keyf l = Ok s.
Proof.
  induction l as [ | x l IH]; simpl; intros H; [ now eexists | ].
  inversion H as [ | ? ? Hx Hl]; subst.
  destruct (IH Hl) as [s Hs]. rewrite Hs. simpl.
  apply insert_sorted_returns. constructor; [ exact Hx | ].
  eapply Permutation_Forall; [ apply (list_sort_perm _ _ _ Hs) | exact Hl ].
Qed.

Lemma finish_returns (d : pydict league_acc) :
  integer_teams d -> exists out, finish d = Ok out.
Proof.
  induction d as [ | [kj la] d IH]; simpl; intros H; [ now eexists | ].
  unfold finish_league.
  destruct (list_sort_returns sort_key (dict_values (la_teams la)))
    as [s Hs]; [ apply (H kj); now left | ].
  rewrite Hs. simpl.
  destruct IH as [out Hout]; [ intros kj' la' Hin; apply (H kj'); now right | ].
  rewrite Hout. simpl. now eexists.
Qed.

Lemma write_team_integer lk0 tk0 league_id team la0 d n :
  pykey league_id = Some lk0 ->
  pykey (get "id" team) = Some tk0 ->
  get "id" team = JInt n ->
  dict_find lk0 d = Some la0 ->
  integer_teams d ->
  integer_teams (write_team lk0 league_id la0 tk0 team d).
Proof.
  intros Hlid Htid Hn Hla Hint kj la Hin. unfold write_team in Hin.
  apply (dict_put_In _ _ _ _ _ _ Hlid) in Hin.
  destruct Hin as [Hin | (-> & _ & _)]; [ now apply (Hint kj) | ].
  destruct (dict_find_In _ _ _ Hla) as (kj0 & Hin0 & _).
  specialize (Hint _ _ Hin0). rewrite Forall_forall in Hint.
  simpl. apply Forall_forall. intros r Hr. unfold dict_values in Hr.
  apply in_map_iff in Hr. destruct Hr as ([kj' r'] & Heq & Hin').
  simpl in Heq. subst r'.
  apply (dict_put_In _ _ _ _ _ _ Htid) in Hin'.
  destruct Hin' as [Hin' | (-> & _ & _)].
  - apply Hint. unfold dict_values.
    change r with (snd (kj', r)). now apply in_map.
  - exists n. now rewrite sort_key_team_data.
Qed.

Lemma ingest_side_returns league_id lk0 entry d :
  pykey league_id = Some lk0 ->
  dict_find lk0 d <> None ->
  (forall team, side_team entry = Some team ->
     exists n, get "id" team = JInt n) ->
  integer_teams d ->
  exists d', ingest_side league_id entry d = Ok d' /\ integer_teams d'.
Proof.
  intros Hk Hsome Hteam Hint. rewrite ingest_side_eq.
  destruct (side_team entry) as [team | ]; [ | now exists d ].
  destruct (Hteam team eq_refl) as [n Hn].
  destruct (dict_find lk0 d) as [la | ] eqn:Hla; [ | congruence ].
  unfold dict_getitem, dict_setitem. rewrite Hk, Hla, Hn. simpl.
  eexists. split; [ reflexivity | ].
  rewrite <- Hn. apply (write_team_integer lk0 (KInt n) _ _ _ _ n); auto.
  now rewrite Hn.
Qed.

Lemma process_match_returns (d : pydict league_acc) (m : json) :
  integer_ids m -> acc_ok d -> integer_teams d ->
  exists d', process_match d m = Ok d' /\ integer_teams d'.
Proof.
  intros [Hleague Hteams] Hok Hint. rewrite process_match_eq.
  destruct (match_league m) as [league | ]; [ | now exists d ].
  destruct (Hleague league eq_refl) as [n Hn]. cbv zeta.
  assert (Hk : pykey (get "id" league) = Some (KInt n)) by now rewrite Hn.
  destruct (present <- dict_contains (get "id" league) d ;;
            if negb present
            then dict_setitem (get "id" league)
                   {| la_id := get "id" league;
                      la_name := get "name" league; la_teams := [] |} d
            else Ok d) as [d1 | e] eqn:E1.
  2:{ unfold dict_contains, dict_setitem in E1. rewrite Hk in E1.
      simpl in E1. now destruct (dict_find (KInt n) d). }
  destruct (ensure_league_effect _ _ _ _ _ Hk Hok E1)
    as (Hok1 & Hs1 & _ & _).
  assert (Hint1 : integer_teams d1).
  { unfold dict_contains, dict_setitem in E1. rewrite Hk in E1.
    simpl in E1. destruct (dict_find (KInt n) d); simpl in E1;
      injection E1 as <-; [ exact Hint | ].
    intros kj la Hin. apply (dict_put_In _ _ _ _ _ _ Hk) in Hin.
    destruct Hin as [Hin | (-> & _ & _)]; [ now apply (Hint kj) | ].
    constructor. }
  simpl.
  destruct (ingest_side_returns _ _ (get "home_league_entry" m) _ Hk Hs1)
    as (d2 & E2 & Hint2); [ | exact Hint1 | ].
  { intros team Ht. apply Hteams. unfold match_teams. rewrite Ht.
    now left. }
  rewrite E2. simpl.
  destruct (ingest_side_effect _ _ _ _ _ Hk Hs1 Hok1 E2)
    as (Hok2 & Hs2 & _ & _).
  apply (ingest_side_returns _ _ _ _ Hk Hs2); [ | exact Hint2 ].
  intros team Ht. apply Hteams. unfold match_teams. rewrite Ht.
  apply in_or_app. right. now left.
Qed.

Lemma match_loop_returns (matches : list json) (d : pydict league_acc) :
  Forall integer_ids matches -> acc_ok d -> integer_teams d ->
  exists d', match_loop d matches = Ok d' /\ integer_teams d'.
Proof.
  revert d. induction matches as [ | m matches IH]; simpl;
    intros d Hall Hok Hint; [ now exists d | ].
  inversion Hall as [ | ? ? Hm Hall']; subst.
  destruct (process_match_returns d m Hm Hok Hint) as (d1 & E & Hint1).
  rewrite E. simpl. apply IH; auto.
  now destruct (process_match_ok _ _ _ Hok E).
Qed.

(** On a batch whose ids are integers, the aggregation raises nothing and
    returns a league mapping. *)
Lemma aggregate_returns (matches : list json) :
  Forall integer_ids matches -> exists out, aggregate matches = Ok out.
Proof.
  intros Hall. unfold aggregate.
  destruct (match_loop_returns matches [] Hall acc_ok_nil)
    as (d & E & Hint); [ intros ? ? [] | ].
  rewrite E. simpl. now apply finish_returns.
Qed.

End AggregatorReturns.

(* ================================================================== *)
(** * The merge rules of the aggregation *)
(* ================================================================== *)

Module AggregatorTheorems.
Import Aggregator Invariants Batch PyFacts AggregatorFacts.

Lemma aggregate_inv matches out :
  aggregate matches = Ok out ->
  exists d, match_loop [] matches = Ok d /\ finish d = Ok out.
Proof.
  unfold aggregate. destruct (match_loop [] matches) as [d | e]; simpl;
    [ | discriminate ].
  intros H. now exists d.
Qed.

(** C2, as amended.  Within a league, the record of a team id is the one
    built from the last occurrence of that id among the matches of that
    league, on whichever side it stood: a league with that key is in the
    result, it holds that record, and it holds no other record for the id.
    In particular a team seen first with club A and later, in the same
    league, with club B shows club B only. *)
Theorem last_occurrence_wins :
  forall (matches : list json) (out : pydict league) (lk tk : key)
         (team : json),
    aggregate matches = Ok out ->
    last_occurrence lk tk matches = Some team ->
    (exists kj L, In (kj, L) out /\ pykey kj = Some lk) /\
    (forall kj L, In (kj, L) out -> pykey kj = Some lk ->
       In (team_data team) (l_teams L) /\
       forall r, In r (l_teams L) -> pykey (get "id" r) = Some tk ->
                 r = team_data team).
Proof.
  intros matches out lk tk team Hagg Hlast.
  destruct (aggregate_inv _ _ Hagg) as (d & Hloop & Hfin).
  destruct (match_loop_ok _ _ _ acc_ok_nil Hloop) as (Hok & Ht & _).
  specialize (Ht lk tk). rewrite Hlast in Ht. split.
  - unfold find_team in Ht.
    destruct (dict_find lk d) as [la | ] eqn:Hla; [ | discriminate ].
    destruct (dict_find_In _ _ _ Hla) as (kj & Hin & Hk).
    destruct (finish_In_rev _ _ _ _ Hfin Hin) as (L & HL & _).
    now exists kj, L.
  - intros kj L Hin Hk. split.
    + destruct (aggregate_league _ _ _ _ Hagg Hin)
        as (d' & la & lk' & Hloop' & _ & Hk' & Hla & _ & HL).
      assert (d' = d) by congruence. assert (lk' = lk) by congruence.
      subst d' lk'. unfold find_team in Ht. rewrite Hla in Ht.
      destruct (dict_find_In _ _ _ Ht) as (kj' & Hin' & _).
      apply finish_league_inv in HL. destruct HL as (_ & _ & Hsort).
      apply list_sort_perm in Hsort.
      apply (Permutation_in _ Hsort). unfold dict_values.
      change (team_data team) with (snd (kj', team_data team)).
      now apply in_map.
    + intros r Hr Hid.
      destruct (record_origin _ _ _ _ _ _ Hagg Hin Hk Hr)
        as (tk' & team' & Hid' & Hlast' & ->).
      congruence.
Qed.

Lemma last_occurrence_wins_witness :
  (exists kj L, In (kj, L) Samples.two_payloads_out /\
                pykey kj = Some (KInt 5)) /\
  (forall kj L, In (kj, L) Samples.two_payloads_out ->
     pykey kj = Some (KInt 5) ->
     In (team_data (Samples.team (JInt 100) "Tigers II" [Samples.club_ten]))
        (l_teams L) /\
     forall r, In r (l_teams L) -> pykey (get "id" r) = Some (KInt 100) ->
       r = team_data
             (Samples.team (JInt 100) "Tigers II" [Samples.club_ten])).
Proof.
  apply (last_occurrence_wins Samples.two_payloads Samples.two_payloads_out
           (KInt 5) (KInt 100)
           (Samples.team (JInt 100) "Tigers II" [Samples.club_ten]));
    reflexivity.
Defined.

(** C2, as stated, fails: team id 100 occurs in a match of league 5 and
    later in a match of league 6; the record that league 5 holds for it is
    the one of the earlier occurrence, not of the last occurrence in the
    batch. *)
Lemma last_write_is_not_across_leagues :
  ~ last_write_wins_across_batch Samples.cross_league.
Proof.
  intros H.
  destruct (H Samples.cross_league_out (JInt 5)
              {| l_id := JInt 5; l_name := JStr "U18";
                 l_teams := [team_data Samples.tigers;
                             team_data Samples.bears] |}
              (team_data Samples.tigers) (KInt 100)
              eq_refl (or_introl eq_refl) (or_introl eq_refl) eq_refl)
    as (team & Hlast & Hrecord).
  vm_compute in Hlast. injection Hlast as <-.
  vm_compute in Hrecord. discriminate Hrecord.
Qed.

(** C1, as amended.  The club fields of a team record are those of the
    last occurrence of the team in its league: a singular [club] when that
    occurrence carries exactly one club object, the sequence [clubs] with
    all of them in their order when it carries two or more, and neither
    field when it carries none. *)
Theorem club_fields_of_last_occurrence :
  forall (matches : list json) (out : pydict league) (kj : json)
         (lk tk : key) (L : league) (r : json),
    aggregate matches = Ok out ->
    In (kj, L) out ->
    pykey kj = Some lk ->
    In r (l_teams L) ->
    pykey (get "id" r) = Some tk ->
    exists team,
      last_occurrence lk tk matches = Some team /\
      club_fields (clubs_list (get "clubs" team)) r.
Proof.
  intros matches out kj lk tk L r Hagg Hin Hk Hr Hid.
  destruct (record_origin _ _ _ _ _ _ Hagg Hin Hk Hr)
    as (tk' & team & Hid' & Hlast & ->).
  assert (tk' = tk) by congruence. subst tk'.
  exists team. split; [ exact Hlast | apply club_fields_team_data ].
Qed.

Lemma club_fields_of_last_occurrence_witness :
  exists team,
    last_occurrence (KInt 5) (KInt 100) Samples.two_payloads = Some team /\
    club_fields (clubs_list (get "clubs" team))
      (team_data (Samples.team (JInt 100) "Tigers II" [Samples.club_ten])).
Proof.
  apply (club_fields_of_last_occurrence Samples.two_payloads
           Samples.two_payloads_out (JInt 5) (KInt 5) (KInt 100)
           {| l_id := JInt 5; l_name := JStr "U18";
              l_teams :=
                [team_data
                   (Samples.team (JInt 100) "Tigers II" [Samples.club_ten]);
                 team_data Samples.bears] |}).
  - reflexivity.
  - left. reflexivity.
  - reflexivity.
  - left. reflexivity.
  - reflexivity.
Defined.

(** C1, as stated, fails: team 100 of league 5 is seen with two distinct
    club payloads across the batch, and its record carries the singular
    [club] of the later occurrence instead of a [clubs] sequence. *)
Lemma club_fields_do_not_follow_batch :
  ~ club_fields_follow_batch Samples.two_payloads.
Proof.
  intros H.
  specialize (H Samples.two_payloads_out (JInt 5) (KInt 5) (KInt 100)
                {| l_id := JInt 5; l_name := JStr "U18";
                   l_teams :=
                     [team_data
                        (Samples.team (JInt 100) "Tigers II"
                           [Samples.club_ten]);
                      team_data Samples.bears] |}
                (team_data
                   (Samples.team (JInt 100) "Tigers II" [Samples.club_ten]))
                eq_refl (or_introl eq_refl) eq_refl (or_introl eq_refl)
                eq_refl).
  vm_compute in H. destruct (H (le_n 2)) as [Hclubs _]. discriminate Hclubs.
Qed.

(** C8.  A league of the result carries the id and the name of the first
    match of the batch that mentions its id; later mentions change
    neither. *)
Theorem league_name_first_seen :
  forall (matches : list json) (out : pydict league) (kj : json)
         (L : league),
    aggregate matches = Ok out ->
    In (kj, L) out ->
    exists lk first,
      pykey kj = Some lk /\
      first_mention lk matches = Some first /\
      l_name L = get "name" first /\
      l_id L = get "id" first /\ kj = get "id" first.
Proof.
  intros matches out kj L Hagg Hin.
  destruct (aggregate_league _ _ _ _ Hagg Hin)
    as (d & la & lk & Hloop & _ & Hk & Hla & Hid & HL).
  destruct (match_loop_ok _ _ _ acc_ok_nil Hloop) as (_ & _ & Hh).
  specialize (Hh lk). unfold find_head in Hh. rewrite Hla in Hh. simpl in Hh.
  destruct (first_mention lk matches) as [first | ] eqn:Hfirst;
    [ | discriminate ].
  apply finish_league_inv in HL. destruct HL as (HLid & HLname & _).
  exists lk, first. inversion Hh. repeat split; congruence.
Qed.

Lemma league_name_first_seen_witness :
  exists lk first,
    pykey (JInt 5) = Some lk /\
    first_mention lk Samples.two_payloads = Some first /\
    JStr "U18" = get "name" first /\
    JInt 5 = get "id" first /\ JInt 5 = get "id" first.
Proof.
  apply (league_name_first_seen Samples.two_payloads
           Samples.two_payloads_out (JInt 5)
           {| l_id := JInt 5; l_name := JStr "U18";
              l_teams :=
                [team_data
                   (Samples.team (JInt 100) "Tigers II" [Samples.club_ten]);
                 team_data Samples.bears] |}).
  - reflexivity.
  - left. reflexivity.
Defined.

(** C9.  The teams of every league of the result are in strictly
    ascending order of their ids, whatever the order in which the ids
    arrived; the sort key of a record without an id is 0. *)
Theorem teams_sorted_by_id :
  forall (matches : list json) (out : pydict league) (kj : json)
         (L : league),
    aggregate matches = Ok out ->
    In (kj, L) out ->
    StronglySorted id_lt (l_teams L) /\
    (forall x, has_field "id" x = false -> sort_key x = JInt 0).
Proof.
  intros matches out kj L Hagg Hin. split.
  - destruct (aggregate_league _ _ _ _ Hagg Hin)
      as (d & la & lk & Hloop & Hok & Hk & Hla & _ & HL).
    destruct (dict_find_In _ _ _ Hla) as (kj0 & Hin0 & _).
    destruct Hok as [_ Hall]. destruct (Hall _ _ Hin0) as [_ Hteams].
    apply finish_league_inv in HL. destruct HL as (_ & _ & Hsort).
    unfold id_lt. eapply list_sort_sorted; [ | exact Hsort ].
    rewrite (teams_sort_keys _ Hteams). apply Hteams.
  - intros x Hx. unfold sort_key, get_default. unfold has_field in Hx.
    destruct x; try reflexivity.
    now destruct (assoc "id" kv).
Qed.

Lemma teams_sorted_by_id_witness :
  StronglySorted id_lt
    [team_data (Samples.team (JInt 100) "Tigers" []);
     team_data (Samples.team (JInt 200) "Bears" []);
     team_data (Samples.team (JInt 300) "Lions" [])] /\
  (forall x, has_field "id" x = false -> sort_key x = JInt 0).
Proof.
  apply (teams_sorted_by_id Samples.unsorted_batch Samples.unsorted_out
           (JInt 5)
           {| l_id := JInt 5; l_name := JStr "U18";
              l_teams :=
                [team_data (Samples.team (JInt 100) "Tigers" []);
                 team_data (Samples.team (JInt 200) "Bears" []);
                 team_data (Samples.team (JInt 300) "Lions" [])] |}).
  - reflexivity.
  - left. reflexivity.
Defined.

(** C10.  Ids are tested by truth value.  A match whose league id is
    falsy leaves the accumulated leagues as they are, so no league entry is
    made for it; a side whose team id is falsy writes nothing; and an
    absent id is one of the falsy cases, because [get] then yields
    [None]. *)
Theorem falsy_id_is_absent :
  (forall (d : pydict league_acc) (m : json),
     truthy (get "id" (get "league" m)) = false ->
     process_match d m = Ok d) /\
  (forall (league_id entry : json) (d : pydict league_acc),
     truthy (get "id" (get "team" entry)) = false ->
     ingest_side league_id entry d = Ok d) /\
  (forall v : json, has_field "id" v = false -> truthy (get "id" v) = false).
Proof.
  split; [ | split ].
  - intros d m H. rewrite process_match_eq. unfold match_league.
    rewrite H, andb_false_r. now destruct (is_dict m).
  - intros league_id entry d H. rewrite ingest_side_eq. unfold side_team.
    rewrite H, andb_false_r. now destruct (truthy entry && is_dict entry).
  - intros v H. unfold get, get_default. unfold has_field in H.
    destruct v; try reflexivity. now destruct (assoc "id" kv).
Qed.

Lemma falsy_id_is_absent_witness :
  process_match []
    (Samples.game (Samples.league_obj (JInt 0) "U18") Samples.tigers
       Samples.bears) = Ok [] /\
  ingest_side (JInt 5)
    (Samples.entry (Samples.team (JStr "") "Tigers" [])) [] = Ok [] /\
  truthy (get "id" (JObj [("name", JStr "U18")])) = false.
Proof.
  destruct falsy_id_is_absent as (Hleague & Hteam & Habsent).
  split; [ | split ].
  - apply Hleague. reflexivity.
  - apply Hteam. reflexivity.
  - apply Habsent. reflexivity.
Defined.

End AggregatorTheorems.

(* ================================================================== *)
(** * Properties of the structure builder *)
(* ================================================================== *)

Module BuilderFacts.
Import Fetcher Aggregator Builder Invariants PyFacts.

Lemma dict_put_absent {V} (k : key) (kj : json) (v : V) (d : pydict V) :
  dict_find k d = None -> dict_put k kj v d = d ++ [(kj, v)].
Proof.
  induction d as [ | [kj0 v0] d IH]; simpl; [ reflexivity | ].
  destruct (is_key k kj0); [ discriminate | ].
  intros H. now rewrite IH.
Qed.

Lemma dict_find_app {V} (k : key) (d1 d2 : pydict V) :
  dict_find k (d1 ++ d2) =
    match dict_find k d1 with Some v => Some v | None => dict_find k d2 end.
Proof.
  induction d1 as [ | [kj0 v0] d1 IH]; simpl; [ reflexivity | ].
  now destruct (is_key k kj0).
Qed.

Lemma nonempty_dict_put {V} (k : key) (kj : json) (v : V) (d : pydict V) :
  nonempty (dict_put k kj v d) = true.
Proof. destruct d as [ | [kj0 v0] d]; simpl; [ | destruct (is_key k kj0) ]; reflexivity. Qed.

Lemma copy_leagues_nonempty (items leagues r : pydict league) :
  copy_leagues items leagues = Ok r ->
  nonempty r = nonempty leagues || nonempty items.
Proof.
  revert leagues. induction items as [ | [kj l] items IH]; simpl;
    intros leagues H.
  - injection H as <-. now rewrite orb_false_r.
  - unfold dict_setitem in H. destruct (pykey kj) as [k | ]; simpl in H;
      [ | discriminate ].
    rewrite (IH _ H), nonempty_dict_put. simpl. now rewrite orb_true_r.
Qed.

(** What the [try] statement does for one organisation: one entry is
    written under the organisation's name, and exactly one of the two
    counters goes up, the successful one precisely when the entry has
    leagues. *)
Lemma process_organization_spec net year org_name org_id s w w' s' :
  process_organization net year org_name org_id s w = (w', s') ->
  exists entry,
    o_id entry = org_id /\
    s_organizations s' =
      dict_put (KStr org_name) (JStr org_name) entry (s_organizations s) /\
    s_year s' = s_year s /\
    total_organizations (s_metadata s') =
      total_organizations (s_metadata s) /\
    ((nonempty (o_leagues entry) = true /\
      successful_organizations (s_metadata s') =
        successful_organizations (s_metadata s) + 1 /\
      failed_organizations (s_metadata s') =
        failed_organizations (s_metadata s)) \/
     (nonempty (o_leagues entry) = false /\
      successful_organizations (s_metadata s') =
        successful_organizations (s_metadata s) /\
      failed_organizations (s_metadata s') =
        failed_organizations (s_metadata s) + 1)).
Proof.
  unfold process_organization.
  destruct (get_structure_by_organization net org_name org_id year w)
    as [w1 [org_data | e]]; simpl.
  - destruct (copy_leagues org_data []) as [leagues | e] eqn:E; simpl.
    + apply copy_leagues_nonempty in E. simpl in E.
      destruct (nonempty org_data); intros H; injection H as <- <-;
        eexists; repeat split; simpl; auto.
    + intros H; injection H as <- <-.
      eexists; repeat split; simpl; auto.
  - intros H; injection H as <- <-.
    eexists; repeat split; simpl; auto.
Qed.

Lemma successes_app (d1 d2 : pydict org_entry) :
  successes (d1 ++ d2) = successes d1 + successes d2.
Proof.
  unfold successes. now rewrite filter_app, length_app, Nat2Z.inj_add.
Qed.

Lemma failures_app (d1 d2 : pydict org_entry) :
  failures (d1 ++ d2) = failures d1 + failures d2.
Proof.
  unfold failures. now rewrite filter_app, length_app, Nat2Z.inj_add.
Qed.

Lemma successes_one (kj : json) (e : org_entry) :
  successes [(kj, e)] = if nonempty (o_leagues e) then 1 else 0.
Proof. unfold successes. simpl. now destruct (nonempty (o_leagues e)). Qed.

Lemma failures_one (kj : json) (e : org_entry) :
  failures [(kj, e)] = if negb (nonempty (o_leagues e)) then 1 else 0.
Proof. unfold failures. simpl. now destruct (nonempty (o_leagues e)). Qed.

Lemma find_other_name (n n' : string) (e : org_entry) :
  n <> n' -> dict_find (KStr n') [(JStr n, e)] = None.
Proof.
  intros Hne. simpl. unfold is_key. simpl.
  destruct (String.eqb n n') eqn:E; [ | reflexivity ].
  apply String.eqb_eq in E. contradiction.
Qed.

(** The loop appends one entry per organisation, in order. *)
Lemma build_loop_spec net year orgs :
  forall cur total s w w' s',
    NoDup (map fst orgs) ->
    (forall o, In o orgs ->
       dict_find (KStr (fst o)) (s_organizations s) = None) ->
    build_loop net year orgs cur total s w = (w', s') ->
    exists entries,
      s_organizations s' = s_organizations s ++ entries /\
      Forall2 entry_of orgs entries /\
      successful_organizations (s_metadata s') =
        successful_organizations (s_metadata s) + successes entries /\
      failed_organizations (s_metadata s') =
        failed_organizations (s_metadata s) + failures entries /\
      total_organizations (s_metadata s') =
        total_organizations (s_metadata s) /\
      s_year s' = s_year s.
Proof.
  induction orgs as [ | [org_name org_id] orgs IH]; simpl;
    intros cur total s w w' s' Hnd Hfresh H.
  - injection H as <- <-. exists []. rewrite app_nil_r.
    repeat split; auto; unfold successes, failures; simpl; lia.
  - inversion Hnd as [ | ? ? Hnotin Hnd']; subst.
    destruct (process_organization net year org_name org_id s w)
      as [w1 s1] eqn:E.
    destruct (process_organization_spec _ _ _ _ _ _ _ _ E)
      as (entry & Hid & Horgs & Hyear & Htot & Hcount).
    rewrite dict_put_absent in Horgs
      by (apply (Hfresh (org_name, org_id)); now left).
    apply IH in H; [ | exact Hnd' | ].
    + destruct H as (entries & Horgs' & Hall & Hs & Hf & Ht & Hy).
      exists ((JStr org_name, entry) :: entries).
      rewrite Horgs', Horgs, <- app_assoc. simpl.
      split; [ reflexivity | ].
      split; [ constructor; [ now split | exact Hall ] | ].
      change ((JStr org_name, entry) :: entries)
        with ([(JStr org_name, entry)] ++ entries).
      rewrite successes_app, failures_app, Hs, Hf, Ht, Hy.
      rewrite successes_one, failures_one.
      destruct Hcount as [(-> & -> & ->) | (-> & -> & ->)];
        cbn [negb]; repeat split; auto; lia.
    + intros o Ho. rewrite Horgs, dict_find_app.
      rewrite (Hfresh o) by now right.
      apply find_other_name. intros ->. apply Hnotin.
      now apply in_map.
Qed.

Lemma build_loop_app net year pre rest cur total s w :
  build_loop net year (pre ++ rest) cur total s w =
    let (w1, s1) := build_loop net year pre cur total s w in
    build_loop net year rest (cur + Z.of_nat (List.length pre)) total s1 w1.
Proof.
  revert cur s w. induction pre as [ | [n i] pre IH]; intros cur s w.
  - simpl. now rewrite Z.add_0_r.
  - cbn [app build_loop].
    destruct (process_organization net year n i s w) as [w1 s1].
    rewrite IH. cbn [List.length].
    replace (cur + 1 + Z.of_nat (List.length pre))
      with (cur + Z.of_nat (S (List.length pre))) by lia.
    reflexivity.
Qed.

Lemma entries_find orgs entries :
  Forall2 entry_of orgs entries ->
  NoDup (map fst orgs) ->
  forall o, In o orgs ->
    exists e, dict_find (KStr (fst o)) entries = Some e /\ o_id e = snd o.
Proof.
  induction 1 as [ | o0 [kj e0] orgs entries [Hkey Hid] Hall IH]; simpl;
    intros Hnd o Hin; [ destruct Hin | ].
  inversion Hnd as [ | ? ? Hnotin Hnd']; subst. simpl in Hkey, Hid.
  subst kj. unfold is_key. simpl.
  destruct Hin as [-> | Hin].
  - rewrite String.eqb_refl. now exists e0.
  - destruct (String.eqb (fst o0) (fst o)) eqn:E.
    + apply String.eqb_eq in E. exfalso. apply Hnotin. rewrite E.
      now apply in_map.
    + now apply IH.
Qed.

Lemma entries_find_none orgs entries n :
  Forall2 entry_of orgs entries ->
  ~ In n (map fst orgs) ->
  dict_find (KStr n) entries = None.
Proof.
  induction 1 as [ | o0 [kj e0] orgs entries [Hkey Hid] Hall IH]; simpl;
    intros Hnotin; [ reflexivity | ].
  simpl in Hkey. subst kj. unfold is_key. simpl.
  destruct (String.eqb (fst o0) n) eqn:E.
  - apply String.eqb_eq in E. exfalso. apply Hnotin. now left.
  - apply IH. intros Hin. apply Hnotin. now right.
Qed.

Lemma failures_nonneg (d : pydict org_entry) : 0 <= failures d.
Proof. unfold failures. lia. Qed.

Lemma NoDup_app_disjoint {A} (l1 l2 : list A) (a : A) :
  NoDup (l1 ++ l2) -> In a l1 -> ~ In a l2.
Proof.
  induction l1 as [ | b l1 IH]; simpl; intros Hnd Hin; [ destruct Hin | ].
  inversion Hnd as [ | ? ? Hnotin Hnd']; subst.
  destruct Hin as [-> | Hin]; [ | now apply IH ].
  intros Hin2. apply Hnotin. apply in_or_app. now right.
Qed.

Lemma initial_fresh orgs year (o : string * json) :
  dict_find (KStr (fst o)) (s_organizations (initial_structure orgs year)) =
    None.
Proof. reflexivity. Qed.

(** C5.  After a run over organisations with pairwise different names,
    the result has exactly one entry per configured organisation, in order
    and under its name and id; the successful counter is the number of
    entries whose league mapping is non-empty, and the failed counter the
    number of entries whose league mapping is empty. *)
Theorem organizations_counted :
  forall (net : network) (orgs : list (string * json)) (year : Z)
         (w : world),
    NoDup (map fst orgs) ->
    let s := snd (build_structure net orgs year w) in
    Forall2 entry_of orgs (s_organizations s) /\
    successful_organizations (s_metadata s) =
      successes (s_organizations s) /\
    failed_organizations (s_metadata s) = failures (s_organizations s) /\
    total_organizations (s_metadata s) = Z.of_nat (List.length orgs).
Proof.
  intros net orgs year w Hnd. unfold build_structure.
  destruct (build_loop net year orgs 0 (Z.of_nat (List.length orgs))
              (initial_structure orgs year) w) as [w' s'] eqn:E.
  apply build_loop_spec in E; [ | exact Hnd | intros; apply initial_fresh ].
  destruct E as (entries & Horgs & Hall & Hs & Hf & Ht & _).
  simpl in *. rewrite Horgs. repeat split; auto.
Qed.

Lemma organizations_counted_witness :
  let s := snd (build_structure Samples.one_bad_answer Samples.two_orgs 2025
                  Samples.fresh) in
  Forall2 entry_of Samples.two_orgs (s_organizations s) /\
  successful_organizations (s_metadata s) = successes (s_organizations s) /\
  failed_organizations (s_metadata s) = failures (s_organizations s) /\
  total_organizations (s_metadata s) =
    Z.of_nat (List.length Samples.two_orgs).
Proof.
  apply (organizations_counted Samples.one_bad_answer Samples.two_orgs 2025
           Samples.fresh).
  repeat constructor; simpl; intuition discriminate.
Defined.

(** C7.  When processing one organisation raises, the builder writes an
    entry for it with an empty league mapping and the error, counts it as
    failed, pauses as after any other organisation and goes on with the
    remaining ones: the run ends as the loop over the remaining
    organisations ends from that state, the failed entry is in the result,
    and so is an entry for every later organisation. *)
Theorem failure_is_isolated :
  forall (net : network) (year : Z) (pre post : list (string * json))
         (org_name : string) (org_id : json) (w w1 w2 : world)
         (s1 : structure) (e : exn),
    let orgs := pre ++ (org_name, org_id) :: post in
    let total := Z.of_nat (List.length orgs) in
    let failed_entry :=
      {| o_id := org_id; o_leagues := []; o_error := Some e |} in
    NoDup (map fst orgs) ->
    build_loop net year pre 0 total (initial_structure orgs year) w =
      (w1, s1) ->
    get_structure_by_organization net org_name org_id year w1 =
      (w2, Raise e) ->
    build_structure net orgs year w =
      build_loop net year post (Z.of_nat (List.length pre) + 1) total
        (count_failed (set_organization org_name failed_entry s1))
        (pace (Z.of_nat (List.length pre) + 1) total w2) /\
    let s := snd (build_structure net orgs year w) in
    dict_find (KStr org_name) (s_organizations s) = Some failed_entry /\
    failed_organizations (s_metadata s) >=
      failed_organizations (s_metadata s1) + 1 /\
    forall o, In o post ->
      exists entry,
        dict_find (KStr (fst o)) (s_organizations s) = Some entry /\
        o_id entry = snd o.
Proof.
  intros net year pre post org_name org_id w w1 w2 s1 e orgs total
    failed_entry Hnd Hpre Hget.
  assert (Hrun : build_structure net orgs year w =
    build_loop net year post (Z.of_nat (List.length pre) + 1) total
      (count_failed (set_organization org_name failed_entry s1))
      (pace (Z.of_nat (List.length pre) + 1) total w2)).
  { unfold build_structure. fold total. unfold orgs at 1.
    rewrite build_loop_app, Hpre. cbn [build_loop].
    unfold process_organization. rewrite Hget. reflexivity. }
  split; [ exact Hrun | ].
  rewrite Hrun. clear Hrun.
  unfold orgs in Hnd. rewrite map_app in Hnd. simpl in Hnd.
  pose proof (NoDup_remove_2 _ _ _ Hnd) as Hname.
  pose proof (NoDup_app_remove_r _ _ Hnd) as Hnd_pre.
  pose proof (NoDup_app_remove_l _ _ Hnd) as Hnd_post'.
  inversion Hnd_post' as [ | ? ? Hname_post Hnd_post]; subst.
  apply build_loop_spec in Hpre;
    [ | exact Hnd_pre | intros; apply initial_fresh ].
  destruct Hpre as (entries_pre & Horgs1 & Hall1 & _ & _ & _ & _).
  simpl in Horgs1.
  assert (Horgs2 :
    s_organizations
      (count_failed (set_organization org_name failed_entry s1)) =
    entries_pre ++ [(JStr org_name, failed_entry)]).
  { simpl. rewrite Horgs1. apply dict_put_absent.
    apply (entries_find_none _ _ _ Hall1).
    intros Hin. apply Hname. apply in_or_app. now left. }
  destruct (build_loop net year post (Z.of_nat (List.length pre) + 1) total
              (count_failed (set_organization org_name failed_entry s1))
              (pace (Z.of_nat (List.length pre) + 1) total w2))
    as [w' s'] eqn:Hpost.
  apply build_loop_spec in Hpost; [ | exact Hnd_post | ].
  - destruct Hpost as (entries_post & Horgs & Hall & _ & Hf & _ & _).
    cbn [snd]. rewrite Horgs, Horgs2. split; [ | split ].
    + rewrite !dict_find_app.
      rewrite (entries_find_none pre entries_pre org_name Hall1)
        by (intros Hin; apply Hname; apply in_or_app; now left).
      simpl. unfold is_key. simpl. now rewrite String.eqb_refl.
    + rewrite Hf. pose proof (failures_nonneg entries_post). simpl. lia.
    + intros o Ho. rewrite !dict_find_app.
      assert (Hin : In (fst o) (map fst post)) by now apply in_map.
      rewrite (entries_find_none pre entries_pre (fst o) Hall1).
      * rewrite find_other_name by (intros ->; contradiction).
        now apply (entries_find post).
      * intros Hin'.
        apply (NoDup_app_disjoint _ _ _ Hnd Hin'). now right.
  - intros o Ho. rewrite Horgs2, dict_find_app.
    assert (Hin : In (fst o) (map fst post)) by now apply in_map.
    rewrite (entries_find_none pre entries_pre (fst o) Hall1).
    + apply find_other_name. intros ->. contradiction.
    + intros Hin'. apply (NoDup_app_disjoint _ _ _ Hnd Hin'). now right.
Qed.

Lemma failure_is_isolated_witness :
  build_structure Samples.one_bad_answer Samples.two_orgs 2025
    Samples.fresh =
  build_loop Samples.one_bad_answer 2025 [("Sued", JStr "2")] 1 2
    (count_failed
       (set_organization "Nord"
          {| o_id := JStr "1"; o_leagues := []; o_error := Some TypeError |}
          (initial_structure Samples.two_orgs 2025)))
    (pace 1 2
       {| requests := 1;
          events := [EvRequest {| url_org := JStr "1";
                                  url_year := 2025 |}] |}) /\
  let s := snd (build_structure Samples.one_bad_answer Samples.two_orgs 2025
                  Samples.fresh) in
  dict_find (KStr "Nord") (s_organizations s) =
    Some {| o_id := JStr "1"; o_leagues := []; o_error := Some TypeError |} /\
  failed_organizations (s_metadata s) >= 0 + 1 /\
  forall o, In o [("Sued", JStr "2")] ->
    exists entry,
      dict_find (KStr (fst o)) (s_organizations s) = Some entry /\
      o_id entry = snd o.
Proof.
  apply (failure_is_isolated Samples.one_bad_answer 2025 []
           [("Sued", JStr "2")] "Nord" (JStr "1") Samples.fresh
           Samples.fresh
           {| requests := 1;
              events := [EvRequest {| url_org := JStr "1";
                                      url_year := 2025 |}] |}
           (initial_structure Samples.two_orgs 2025) TypeError).
  - repeat constructor; simpl; intuition discriminate.
  - reflexivity.
  - reflexivity.
Defined.

End BuilderFacts.

(* ================================================================== *)
(** * Properties of the snapshot writer *)
(* ================================================================== *)

Module WriterFacts.
Import Writer.

Section Snapshot.
Context {doc : Type}.
Implicit Types (d : disk doc) (structure : doc) (fl : faults).

(** C6, evaluated.  The prior snapshot [old] of the year is on disk and
    [os.rename] fails: [save_structure] reports failure, and the output
    path holds no file any more, because [os.remove] had already deleted
    the prior snapshot; the new document is left in the temporary file. *)
Theorem rename_failure_loses_snapshot :
  forall (old new : doc) (year : Z),
    let r := save_structure (fail_at OpRename OSError) new year
               (disk_with (Complete old) year) in
    snd r = Ok false /\
    file (now (fst r)) (OutputFile year) = None /\
    file (now (fst r)) (TempFile year) = Some (Complete new).
Proof.
  intros old new year. unfold disk_with, fail_at. run_save.
  rewrite !Z.eqb_refl. simpl. rewrite !Z.eqb_refl. auto.
Qed.

Lemma save_structure_disk fl structure year d :
  fst (save_structure fl structure year d) =
  fst (try_block fl structure year d).
Proof.
  unfold save_structure.
  destruct (try_block fl structure year d) as [d' [[] | []]]; reflexivity.
Qed.

Lemma save_structure_true fl structure year d :
  snd (save_structure fl structure year d) = Ok true <->
  snd (try_block fl structure year d) = Ok tt.
Proof.
  unfold save_structure.
  destruct (try_block fl structure year d) as [d' [[] | []]]; simpl;
    split; congruence.
Qed.

(** Unless it is [os.rename] that fails, a run that does not succeed
    leaves the file at the output path as it was. *)
Lemma snapshot_kept_unless_rename_fails fl structure year d :
  fl OpRename = None ->
  snd (save_structure fl structure year d) <> Ok true ->
  file (now (fst (save_structure fl structure year d))) (OutputFile year) =
  file (now d) (OutputFile year).
Proof.
  rewrite save_structure_true, save_structure_disk. intros Hren.
  run_try. rewrite Hren. each_fault fl d year; congruence.
Qed.

(** The output path never holds a document that was cut short: the only
    file ever written there is the renamed, completely written temporary
    file. *)
Lemma output_never_partial fl structure year d :
  (forall st, In st (past d ++ [now d]) ->
     forall x, file st (OutputFile year) <> Some (Partial x)) ->
  forall st,
    In st (past (fst (save_structure fl structure year d)) ++
           [now (fst (save_structure fl structure year d))]) ->
    forall x, file st (OutputFile year) <> Some (Partial x).
Proof.
  intros Hinv.
  assert (Hnow : forall x,
            file (now d) (OutputFile year) <> Some (Partial x)).
  { apply Hinv. apply in_or_app. right. now left. }
  assert (Hpast : forall st, In st (past d) ->
            forall x, file st (OutputFile year) <> Some (Partial x)).
  { intros st Hin. apply Hinv. apply in_or_app. now left. }
  rewrite save_structure_disk. run_try.
  each_fault fl d year; destruct (fl OpRename); simpl;
    intros st Hin x;
    repeat (rewrite in_app_iff in Hin; simpl in Hin);
    repeat match goal with
           | Hor : _ \/ _ |- _ => destruct Hor
           | Hf : False |- _ => destruct Hf
           end;
    try (now apply Hpast); subst; simpl;
    rewrite ?Z.eqb_refl; simpl; try congruence; auto.
Qed.

End Snapshot.

End WriterFacts.

(* ================================================================== *)
(** * Bounds and outcomes of the fetcher *)
(* ================================================================== *)

Module FetcherBounds.
Import Fetcher Measures.

(** One pass of the loop: one request, at most one sleep after it (only
    when the loop goes on and attempts remain), a response is returned only
    with status 200, and only an exception that no clause catches leaves
    the function. *)
Lemma attempt_once_spec net u attempt max_retries w w' c :
  attempt_once net u attempt max_retries w = (w', c) ->
  requests w' = S (requests w) /\
  (events w' = events w ++ [EvRequest u] \/
   (c = Continue /\ attempt < max_retries /\
    exists s, events w' = events w ++ [EvRequest u; EvSleep s] /\
              (s = RETRY_DELAY * attempt \/ s = RETRY_DELAY))) /\
  (forall r, c = Return (Some r) ->
     net (requests w) u = Responds r /\ status_code r = 200) /\
  (forall e, c = Propagate e ->
     net (requests w) u = Fails e /\ caught e = false).
Proof.
  unfold attempt_once, requests_get, raise_for_status, handle, sleep.
  destruct (net (requests w) u) as [r | e] eqn:Hnet.
  - split_ifs; intros H; injection H as <- <-; simpl;
      (split; [ reflexivity | ]);
      (split;
       [ first
           [ left; reflexivity
           | right; split; [ reflexivity | ]; split;
             [ now apply Z.ltb_lt | ];
             eexists; split;
             [ rewrite <- app_assoc; reflexivity | left; reflexivity ] ]
       | ]);
      (split; [ intros r' Hr; try discriminate Hr | intros e He; discriminate He ]).
    injection Hr as <-. split; [ reflexivity | now apply Z.eqb_eq ].
  - destruct e; split_ifs; intros H; injection H as <- <-; simpl;
      (split; [ reflexivity | ]);
      (split;
       [ first
           [ left; reflexivity
           | right; split; [ reflexivity | ]; split;
             [ now apply Z.ltb_lt | ];
             eexists; split;
             [ rewrite <- app_assoc; reflexivity | right; reflexivity ] ]
       | ]);
      (split; [ intros r' Hr; discriminate Hr
              | intros e He; try discriminate He ]);
      injection He as <-; split; reflexivity.
Qed.

Lemma slept_app (a b : list event) : slept (a ++ b) = slept a + slept b.
Proof.
  induction a as [ | [u | s] a IH]; simpl; rewrite ?IH; lia.
Qed.

(** The loop with [n] passes left, where [n] is what remains of the budget
    at attempt number [attempt]. *)
Lemma fetch_loop_spec net u n :
  forall attempt max_retries w w' r,
    1 <= attempt ->
    Z.of_nat n = max_retries - attempt + 1 ->
    fetch_loop net u n attempt max_retries w = (w', r) ->
    (requests w <= requests w' <= requests w + n)%nat /\
    (n <> 0%nat -> (requests w < requests w')%nat) /\
    exists t,
      events w' = events w ++ t /\
      ((n = 0%nat /\ t = []) \/ exists t' u', t = t' ++ [EvRequest u']) /\
      0 <= slept t /\
      (n <> 0%nat ->
       2 * slept t <=
         RETRY_DELAY * (Z.of_nat n - 1) * (2 * attempt + Z.of_nat n - 2)) /\
      (n = 0%nat -> slept t = 0) /\
      (forall resp, r = Ok (Some resp) ->
         status_code resp = 200 /\
         net (pred (requests w')) u = Responds resp) /\
      (forall e, r = Raise e ->
         net (pred (requests w')) u = Fails e /\ caught e = false).
Proof.
  induction n as [ | n IH]; intros attempt max_retries w w' r Hatt Hn H.
  - simpl in H. injection H as <- <-.
    split; [ lia | split; [ congruence | ] ].
    exists []. rewrite app_nil_r. simpl.
    repeat split; auto; try lia; try congruence; discriminate.
  - cbn [fetch_loop] in H.
    destruct (attempt_once net u attempt max_retries w) as [w1 c] eqn:E.
    destruct (attempt_once_spec _ _ _ _ _ _ _ E)
      as (Hreq & Hev & Hret & Hprop).
    destruct c as [ | r0 | e0].
    + apply IH in H; [ | lia | lia ].
      destruct H as (Hr & Hpos & t & Ht & Hend & Hs0 & Hs & Hz & Hok & Hex).
      split; [ lia | split; [ lia | ] ].
      destruct Hev as [Hev | (_ & Hlt & s & Hev & Hsleep)].
      * exists (EvRequest u :: t). rewrite Ht, Hev, <- app_assoc. cbn [app slept].
        split; [ reflexivity | ]. split.
        { right. destruct Hend as [[_ ->] | (t' & u' & ->)].
          - now exists [], u.
          - now exists (EvRequest u :: t'), u'. }
        split; [ exact Hs0 | ]. split.
        { intros _. destruct n as [ | n'];
            [ rewrite (Hz eq_refl); unfold RETRY_DELAY; nia | ].
          assert (Hs' := Hs ltac:(discriminate)).
          unfold RETRY_DELAY in *. nia. }
        split; [ discriminate | ]. split; [ exact Hok | exact Hex ].
      * exists (EvRequest u :: EvSleep s :: t).
        rewrite Ht, Hev, <- app_assoc. cbn [app slept].
        split; [ reflexivity | ].
        assert (Hs_le : 0 <= s <= RETRY_DELAY * attempt)
          by (unfold RETRY_DELAY in *; destruct Hsleep; nia).
        split.
        { right. destruct Hend as [[-> _] | (t' & u' & ->)]; [ lia | ].
          now exists (EvRequest u :: EvSleep s :: t'), u'. }
        split; [ lia | ]. split.
        { intros _. destruct n as [ | n']; [ lia | ].
          assert (Hs' := Hs ltac:(discriminate)).
          unfold RETRY_DELAY in *. nia. }
        split; [ discriminate | ]. split; [ exact Hok | exact Hex ].
    + injection H as <- <-.
      destruct Hev as [Hev | (Hc & _)]; [ | discriminate Hc ].
      split; [ lia | split; [ lia | ] ].
      exists [EvRequest u]. split; [ exact Hev | ]. split.
      { right. now exists [], u. }
      cbn [slept]. split; [ lia | ].
      split; [ intros _; unfold RETRY_DELAY; nia | ].
      split; [ discriminate | ]. split.
      * intros resp Hr. injection Hr as ->.
        destruct (Hret resp eq_refl) as [Hnet H200].
        rewrite Hreq. simpl. auto.
      * discriminate.
    + injection H as <- <-.
      destruct Hev as [Hev | (Hc & _)]; [ | discriminate Hc ].
      split; [ lia | split; [ lia | ] ].
      exists [EvRequest u]. split; [ exact Hev | ]. split.
      { right. now exists [], u. }
      cbn [slept]. split; [ lia | ].
      split; [ intros _; unfold RETRY_DELAY; nia | ].
      split; [ discriminate | ]. split.
      * discriminate.
      * intros e He. injection He as ->. rewrite Hreq. simpl.
        now apply Hprop.
Qed.

(** The same for a call of the function, whatever the budget. *)
Lemma fetch_spec net u max_retries w w' r :
  fetch_api_with_retry net u max_retries w = (w', r) ->
  (requests w <= requests w' <= requests w + Z.to_nat max_retries)%nat /\
  (0 < max_retries -> (requests w < requests w')%nat) /\
  exists t,
    events w' = events w ++ t /\
    ends_with_request t /\
    0 <= slept t /\
    2 * slept t <=
      RETRY_DELAY * Z.of_nat (Z.to_nat max_retries) *
      (Z.of_nat (Z.to_nat max_retries) - 1) /\
    (forall resp, r = Ok (Some resp) ->
       status_code resp = 200 /\
       net (pred (requests w')) u = Responds resp) /\
    (forall e, r = Raise e ->
       net (pred (requests w')) u = Fails e /\ caught e = false).
Proof.
  unfold fetch_api_with_retry. intros H.
  destruct (Z.to_nat max_retries) as [ | n] eqn:En.
  - simpl in H. injection H as <- <-.
    split; [ lia | split; [ lia | ] ].
    exists []. rewrite app_nil_r. simpl.
    repeat split; try lia; try discriminate. now left.
  - apply fetch_loop_spec in H; [ | lia | lia ].
    destruct H as (Hr & Hpos & t & Ht & Hend & Hs0 & Hs & _ & Hok & Hex).
    split; [ exact Hr | split; [ intros _; apply Hpos; discriminate | ] ].
    exists t. split; [ exact Ht | ]. split.
    { destruct Hend as [[Hz _] | Hend]; [ discriminate | now right ]. }
    split; [ exact Hs0 | ]. split; [ | split; assumption ].
    assert (Hs' := Hs ltac:(discriminate)).
    unfold RETRY_DELAY in *. nia.
Qed.

Lemma added_app (w w' : world) (t : list event) :
  events w' = events w ++ t -> added w w' = t.
Proof.
  intros H. unfold added. rewrite H, skipn_app, skipn_all, Nat.sub_diag.
  reflexivity.
Qed.

(** X1.  Whatever the network answers, a call of the fetcher sends at
    most [max_retries] requests (none for a budget that is not positive,
    at least one otherwise) and only appends to the trace. *)
Theorem fetch_request_bound :
  forall (net : network) (u : url) (max_retries : Z) (w : world),
    let w' := fst (fetch_api_with_retry net u max_retries w) in
    (requests w <= requests w' <= requests w + Z.to_nat max_retries)%nat /\
    (0 < max_retries -> (requests w < requests w')%nat) /\
    events w' = events w ++ added w w'.
Proof.
  intros net u max_retries w.
  destruct (fetch_api_with_retry net u max_retries w) as [w' r] eqn:E.
  destruct (fetch_spec _ _ _ _ _ _ E) as (Hr & Hpos & t & Ht & _).
  cbn [fst]. rewrite (added_app _ _ _ Ht). auto.
Qed.

(** X2.  The seconds slept in one call are bounded by the linear backoff
    summed over the attempts that can be followed by a retry:
    RETRY_DELAY * n * (n - 1) / 2 for a budget of n attempts, that is 30
    seconds for the default budget. *)
Theorem fetch_sleep_bound :
  forall (net : network) (u : url) (max_retries : Z) (w : world),
    let w' := fst (fetch_api_with_retry net u max_retries w) in
    let n := Z.of_nat (Z.to_nat max_retries) in
    0 <= slept (added w w') /\
    2 * slept (added w w') <= RETRY_DELAY * n * (n - 1) /\
    (max_retries = MAX_RETRIES -> slept (added w w') <= 30).
Proof.
  intros net u max_retries w.
  destruct (fetch_api_with_retry net u max_retries w) as [w' r] eqn:E.
  destruct (fetch_spec _ _ _ _ _ _ E) as (_ & _ & t & Ht & _ & H0 & Hs & _).
  cbn [fst]. rewrite (added_app _ _ _ Ht).
  split; [ exact H0 | split; [ exact Hs | ] ].
  intros ->. unfold MAX_RETRIES, RETRY_DELAY in *.
  change (Z.of_nat (Z.to_nat 3)) with 3 in Hs. lia.
Qed.

(** X3.  The fetcher never returns right after a sleep: the trace it adds
    is empty or ends with a request. *)
Theorem fetch_never_ends_asleep :
  forall (net : network) (u : url) (max_retries : Z) (w : world),
    ends_with_request
      (added w (fst (fetch_api_with_retry net u max_retries w))).
Proof.
  intros net u max_retries w.
  destruct (fetch_api_with_retry net u max_retries w) as [w' r] eqn:E.
  destruct (fetch_spec _ _ _ _ _ _ E) as (_ & _ & t & Ht & Hend & _).
  cbn [fst]. now rewrite (added_app _ _ _ Ht).
Qed.

(** X4.  A response that the fetcher returns has status 200 and is the
    answer to the last request it sent. *)
Theorem fetch_returns_only_200 :
  forall (net : network) (u : url) (max_retries : Z) (w w' : world)
         (resp : response),
    fetch_api_with_retry net u max_retries w = (w', Ok (Some resp)) ->
    status_code resp = 200 /\
    net (pred (requests w')) u = Responds resp.
Proof.
  intros net u max_retries w w' resp E.
  destruct (fetch_spec _ _ _ _ _ _ E) as (_ & _ & t & _ & _ & _ & _ & Hok & _).
  now apply Hok.
Qed.

Lemma fetch_returns_only_200_witness :
  status_code {| status_code := 200; body := Some (JArr []) |} = 200 /\
  Samples.script [Samples.respond 201 []; Samples.respond 200 []]
    (pred 2) Samples.the_url =
  Responds {| status_code := 200; body := Some (JArr []) |}.
Proof.
  apply (fetch_returns_only_200
           (Samples.script [Samples.respond 201 []; Samples.respond 200 []])
           Samples.the_url MAX_RETRIES Samples.fresh
           {| requests := 2;
              events := [EvRequest Samples.the_url;
                         EvRequest Samples.the_url] |}).
  reflexivity.
Defined.

(** X5.  The fetcher raises only what [requests.get] raised at the last
    request, and only when that is none of the exceptions of the requests
    library: time-outs, connection errors, HTTP errors and other request
    exceptions never leave it. *)
Theorem fetch_raises_only_uncaught :
  forall (net : network) (u : url) (max_retries : Z) (w w' : world)
         (e : exn),
    fetch_api_with_retry net u max_retries w = (w', Raise e) ->
    net (pred (requests w')) u = Fails e /\ caught e = false.
Proof.
  intros net u max_retries w w' e E.
  destruct (fetch_spec _ _ _ _ _ _ E) as (_ & _ & t & _ & _ & _ & _ & _ & Hex).
  now apply Hex.
Qed.

Lemma fetch_raises_only_uncaught_witness :
  Samples.broken (pred 1) Samples.the_url =
    Fails (OtherError "ValueError") /\
  caught (OtherError "ValueError") = false.
Proof.
  apply (fetch_raises_only_uncaught Samples.broken Samples.the_url
           MAX_RETRIES Samples.fresh
           {| requests := 1; events := [EvRequest Samples.the_url] |}).
  reflexivity.
Defined.

(** X6.  A 404 ends the fetch at once: one request, no sleep, no result,
    whatever the budget (if positive). *)
Theorem fetch_404_no_retry :
  forall (net : network) (u : url) (max_retries : Z) (w : world)
         (b : option json),
    0 < max_retries ->
    net (requests w) u = Responds {| status_code := 404; body := b |} ->
    fetch_api_with_retry net u max_retries w = (after_request u w, Ok None).
Proof.
  intros net u max_retries w b Hpos Hnet. unfold fetch_api_with_retry.
  destruct (Z.to_nat max_retries) as [ | n] eqn:E; [ lia | ].
  cbn [fetch_loop]. unfold attempt_once, requests_get. now rewrite Hnet.
Qed.

Lemma fetch_404_no_retry_witness :
  fetch_api_with_retry Samples.not_found Samples.the_url MAX_RETRIES
    Samples.fresh =
  (after_request Samples.the_url Samples.fresh, Ok None).
Proof.
  apply (fetch_404_no_retry Samples.not_found Samples.the_url MAX_RETRIES
           Samples.fresh (Some (JArr []))).
  - reflexivity.
  - reflexivity.
Defined.

(** The loop when every remaining attempt is answered in a way that is
    retried with the sleep [delay]. *)
Lemma fetch_loop_retried net u max_retries delay n :
  forall attempt w,
    Z.of_nat n = max_retries - attempt + 1 ->
    (forall k w0 a, (k < n)%nat -> requests w0 = (requests w + k)%nat ->
       attempt_once net u a max_retries w0 =
         if a <? max_retries
         then (sleep (delay a) (after_request u w0), Continue)
         else (after_request u w0, Return None)) ->
    fetch_loop net u n attempt max_retries w =
      ({| requests := requests w + n;
          events := events w ++ retry_trace delay u n attempt |}, Ok None).
Proof.
  induction n as [ | n IH]; intros attempt w Hn Hall.
  - simpl. destruct w as [rq ev]. simpl. now rewrite Nat.add_0_r, app_nil_r.
  - cbn [fetch_loop]. rewrite (Hall 0%nat w attempt) by lia.
    destruct n as [ | n'].
    + replace (attempt <? max_retries) with false
        by (symmetry; apply Z.ltb_ge; lia).
      unfold after_request. simpl. now rewrite Nat.add_1_r.
    + replace (attempt <? max_retries) with true
        by (symmetry; apply Z.ltb_lt; lia).
      rewrite IH.
      * unfold sleep, after_request. cbn [requests events retry_trace].
        rewrite <- !app_assoc. cbn [app]. f_equal. f_equal. lia.
      * lia.
      * intros k w0 a Hk Hw0. apply (Hall (S k)); [ lia | ].
        rewrite Hw0. unfold sleep, after_request. simpl. lia.
Qed.

Lemma attempt_once_retryable net u attempt max_retries w status b :
  net (requests w) u = Responds {| status_code := status; body := b |} ->
  retryable status = true ->
  attempt_once net u attempt max_retries w =
    if attempt <? max_retries
    then (sleep (RETRY_DELAY * attempt) (after_request u w), Continue)
    else (after_request u w, Return None).
Proof.
  intros Hnet Hretry. unfold attempt_once, requests_get. rewrite Hnet.
  cbn [status_code]. unfold retryable in Hretry.
  destruct (status =? 200) eqn:E200.
  { apply Z.eqb_eq in E200. subst. discriminate Hretry. }
  destruct (status =? 429); [ reflexivity | ].
  destruct (status =? 503); [ reflexivity | ].
  simpl in Hretry. rewrite Hretry.
  destruct (status =? 404) eqn:E404; [ | reflexivity ].
  apply Z.eqb_eq in E404. subst. discriminate Hretry.
Qed.

Lemma attempt_once_transient net u attempt max_retries w e :
  net (requests w) u = Fails e ->
  transient e = true ->
  attempt_once net u attempt max_retries w =
    if attempt <? max_retries
    then (sleep RETRY_DELAY (after_request u w), Continue)
    else (after_request u w, Return None).
Proof.
  intros Hnet Ht. unfold attempt_once, requests_get. rewrite Hnet.
  destruct e; try discriminate Ht; reflexivity.
Qed.

(** X7.  When every attempt of the budget is answered with 429, 503 or
    another server error, the fetcher gives up with no result after
    exactly [max_retries] requests; after attempt k it sleeps
    RETRY_DELAY * k seconds, and it does not sleep after the last
    attempt. *)
Theorem fetch_gives_up_after_backoff :
  forall (net : network) (u : url) (max_retries : Z) (w : world),
    (forall k, (k < Z.to_nat max_retries)%nat ->
       exists status b,
         net (requests w + k)%nat u =
           Responds {| status_code := status; body := b |} /\
         retryable status = true) ->
    fetch_api_with_retry net u max_retries w =
      ({| requests := requests w + Z.to_nat max_retries;
          events := events w ++ backoff_trace u (Z.to_nat max_retries) |},
       Ok None).
Proof.
  intros net u max_retries w Hall. unfold fetch_api_with_retry, backoff_trace.
  destruct (Z.to_nat max_retries) as [ | n] eqn:En.
  - simpl. destruct w as [rq ev]. simpl. now rewrite Nat.add_0_r, app_nil_r.
  - apply fetch_loop_retried; [ lia | ].
    intros k w0 a Hk Hw0. destruct (Hall k Hk) as (status & b & Hnet & Hr).
    rewrite <- Hw0 in Hnet. now apply (attempt_once_retryable _ _ _ _ _ status b).
Qed.

Lemma fetch_gives_up_after_backoff_witness :
  fetch_api_with_retry Samples.all_busy Samples.the_url MAX_RETRIES
    Samples.fresh =
  ({| requests := 3;
      events := [EvRequest Samples.the_url; EvSleep 10;
                 EvRequest Samples.the_url; EvSleep 20;
                 EvRequest Samples.the_url] |}, Ok None).
Proof.
  apply (fetch_gives_up_after_backoff Samples.all_busy Samples.the_url
           MAX_RETRIES Samples.fresh).
  intros k Hk. destruct k as [ | [ | [ | k]]].
  - exists 429, (Some (JArr [])). split; reflexivity.
  - exists 503, (Some (JArr [])). split; reflexivity.
  - exists 500, (Some (JArr [])). split; reflexivity.
  - simpl in Hk. lia.
Defined.

(** X8.  When every attempt of the budget times out or fails to connect,
    the fetcher gives up with no result after exactly [max_retries]
    requests, sleeping the fixed RETRY_DELAY between attempts whatever the
    attempt number, and not after the last one. *)
Theorem fetch_gives_up_after_fixed_delay :
  forall (net : network) (u : url) (max_retries : Z) (w : world),
    (forall k, (k < Z.to_nat max_retries)%nat ->
       exists e, net (requests w + k)%nat u = Fails e /\
                 transient e = true) ->
    fetch_api_with_retry net u max_retries w =
      ({| requests := requests w + Z.to_nat max_retries;
          events := events w ++ fixed_trace u (Z.to_nat max_retries) |},
       Ok None).
Proof.
  intros net u max_retries w Hall. unfold fetch_api_with_retry, fixed_trace.
  destruct (Z.to_nat max_retries) as [ | n] eqn:En.
  - simpl. destruct w as [rq ev]. simpl. now rewrite Nat.add_0_r, app_nil_r.
  - apply fetch_loop_retried; [ lia | ].
    intros k w0 a Hk Hw0. destruct (Hall k Hk) as (e & Hnet & Ht).
    rewrite <- Hw0 in Hnet. now apply (attempt_once_transient _ _ _ _ _ e).
Qed.

Lemma fetch_gives_up_after_fixed_delay_witness :
  fetch_api_with_retry Samples.timing_out Samples.the_url MAX_RETRIES
    Samples.fresh =
  ({| requests := 3;
      events := [EvRequest Samples.the_url; EvSleep 10;
                 EvRequest Samples.the_url; EvSleep 10;
                 EvRequest Samples.the_url] |}, Ok None).
Proof.
  apply (fetch_gives_up_after_fixed_delay Samples.timing_out
           Samples.the_url MAX_RETRIES Samples.fresh).
  intros k Hk. exists ReqTimeout. split; reflexivity.
Defined.

End FetcherBounds.

(* ================================================================== *)
(** * The shape of the aggregated result *)
(* ================================================================== *)

Module AggregatorShape.
Import Aggregator Invariants Batch Measures PyFacts AggregatorFacts.
Import AggregatorReturns.

Lemma match_loop_app (a b : list json) (d : pydict league_acc) :
  match_loop d (a ++ b) = (d' <- match_loop d a ;; match_loop d' b).
Proof.
  revert d. induction a as [ | m a IH]; intros d; simpl; [ reflexivity | ].
  destruct (process_match d m) as [d1 | e]; simpl; [ apply IH | reflexivity ].
Qed.

Lemma last_opt_In {A} (l : list A) (x : A) : last_opt l = Some x -> In x l.
Proof.
  induction l as [ | a l IH]; [ discriminate | ].
  rewrite last_opt_cons. destruct (last_opt l) as [y | ] eqn:E.
  - intros H. right. apply IH. exact H.
  - intros H. injection H as ->. now left.
Qed.

Lemma side_team_inv (entry team : json) :
  side_team entry = Some team ->
  team = get "team" entry /\ truthy (get "id" team) = true /\
  is_dict team = true.
Proof.
  unfold side_team. destruct (truthy entry && is_dict entry); [ | discriminate ].
  destruct (truthy (get "team" entry)) eqn:Et; simpl; [ | discriminate ].
  destruct (is_dict (get "team" entry)) eqn:Ed; simpl; [ | discriminate ].
  destruct (truthy (get "id" (get "team" entry))) eqn:Ei; [ | discriminate ].
  intros H. injection H as <-. auto.
Qed.

Lemma match_teams_inv (m team : json) :
  In team (match_teams m) ->
  side_team (get "home_league_entry" m) = Some team \/
  side_team (get "away_league_entry" m) = Some team.
Proof.
  unfold match_teams. rewrite in_app_iff.
  destruct (side_team (get "home_league_entry" m)) as [t1 | ];
    destruct (side_team (get "away_league_entry" m)) as [t2 | ]; simpl;
    intuition congruence.
Qed.

Lemma occurrences_in_inv (lk tk : key) (m team : json) :
  In team (occurrences_in lk tk m) ->
  exists league,
    match_league m = Some league /\ pykey (get "id" league) = Some lk /\
    In team (match_teams m) /\ pykey (get "id" team) = Some tk.
Proof.
  unfold occurrences_in. destruct (match_league m) as [league | ];
    [ | intros [] ].
  destruct (is_key lk (get "id" league)) eqn:E; [ | intros [] ].
  rewrite filter_In. intros [Hin Hk]. exists league.
  apply is_key_iff in E, Hk. auto.
Qed.

Lemma last_occurrence_In (lk tk : key) (matches : list json) (team : json) :
  last_occurrence lk tk matches = Some team ->
  exists m, In m matches /\ In team (occurrences_in lk tk m).
Proof.
  intros H. apply last_opt_In in H. unfold occurrences in H.
  apply in_flat_map in H. exact H.
Qed.

Lemma record_source :
  forall (matches : list json) (out : pydict league) (kj : json)
         (L : league) (r : json),
    aggregate matches = Ok out ->
    In (kj, L) out ->
    In r (l_teams L) ->
    exists m league team,
      In m matches /\
      match_league m = Some league /\
      pykey (get "id" league) = pykey kj /\
      In team (match_teams m) /\
      truthy (get "id" team) = true /\
      r = team_data team.
Proof.
  intros matches out kj L r Hagg Hin Hr.
  destruct (aggregate_league _ _ _ _ Hagg Hin)
    as (_ & _ & lk & _ & _ & Hk & _).
  destruct (record_origin _ _ _ _ _ _ Hagg Hin Hk Hr)
    as (tk & team & _ & Hlast & ->).
  destruct (last_occurrence_In _ _ _ _ Hlast) as (m & Hm & Hocc).
  destruct (occurrences_in_inv _ _ _ _ Hocc) as (league & Hl & Hlk & Ht & _).
  exists m, league, team. repeat split; auto; try congruence.
  destruct (match_teams_inv _ _ Ht) as [Hs | Hs];
    now destruct (side_team_inv _ _ Hs) as (_ & Htr & _).
Qed.


(** X9.  Nothing is invented: every team record of the result was built
    from the team object on one side of a match of the batch that names
    the league the record is filed under, and that object has a truthy
    id. *)
Theorem records_come_from_matches :
  forall (matches : list json) (out : pydict league) (kj : json)
         (L : league) (r : json),
    aggregate matches = Ok out ->
    In (kj, L) out ->
    In r (l_teams L) ->
    exists m league team,
      In m matches /\
      match_league m = Some league /\
      pykey (get "id" league) = pykey kj /\
      In team (match_teams m) /\
      truthy (get "id" team) = true /\
      r = team_data team.
Proof. exact record_source. Qed.

Lemma records_come_from_matches_witness :
  exists m league team,
    In m Samples.scenario /\
    match_league m = Some league /\
    pykey (get "id" league) = pykey (JInt 5) /\
    In team (match_teams m) /\
    truthy (get "id" team) = true /\
    team_data Samples.bears = team_data team.
Proof.
  apply (records_come_from_matches Samples.scenario Samples.scenario_out
           (JInt 5)
           {| l_id := JInt 5; l_name := JStr "U18";
              l_teams := [team_data Samples.tigers;
                          team_data Samples.bears] |}).
  - reflexivity.
  - left. reflexivity.
  - right. left. reflexivity.
Defined.

Lemma first_mention_of (lk : key) (matches : list json) (m league : json) :
  In m matches -> match_league m = Some league ->
  pykey (get "id" league) = Some lk ->
  first_mention lk matches <> None.
Proof.
  intros Hm Hl Hk. unfold first_mention.
  assert (Hin : In league (mentions lk matches)).
  { unfold mentions. apply in_flat_map. exists m. split; [ exact Hm | ].
    rewrite Hl. apply is_key_iff in Hk. rewrite Hk. now left. }
  destruct (mentions lk matches); [ destruct Hin | discriminate ].
Qed.

(** X10.  No league is dropped: every league that a match of the batch
    names is in the result, also when none of its matches names a team;
    in that case its team list is empty. *)
Theorem every_league_is_kept :
  forall (matches : list json) (out : pydict league) (m league : json)
         (lk : key),
    aggregate matches = Ok out ->
    In m matches ->
    match_league m = Some league ->
    pykey (get "id" league) = Some lk ->
    exists kj L,
      In (kj, L) out /\ pykey kj = Some lk /\
      ((forall tk, last_occurrence lk tk matches = None) ->
       l_teams L = []).
Proof.
  intros matches out m league lk Hagg Hm Hl Hk.
  pose proof (first_mention_of _ _ _ _ Hm Hl Hk) as Hfirst.
  assert (Hagg' := Hagg). unfold aggregate in Hagg'.
  destruct (match_loop [] matches) as [d | e] eqn:Hloop; simpl in Hagg';
    [ | discriminate ].
  destruct (match_loop_ok _ _ _ acc_ok_nil Hloop) as (_ & _ & Hh).
  specialize (Hh lk). unfold find_head in Hh. simpl in Hh.
  destruct (dict_find lk d) as [la | ] eqn:Hla.
  2:{ destruct (first_mention lk matches); [ discriminate | congruence ]. }
  destruct (dict_find_In _ _ _ Hla) as (kj & Hin & Hkj).
  destruct (finish_In_rev _ _ _ _ Hagg' Hin) as (L & HL & _).
  exists kj, L. split; [ exact HL | split; [ exact Hkj | ] ].
  intros Hnone. destruct (l_teams L) as [ | r rest] eqn:Ht; [ reflexivity | ].
  destruct (record_origin _ _ _ _ _ r Hagg HL Hkj)
    as (tk & team & _ & Hlast & _); [ rewrite Ht; now left | ].
  rewrite Hnone in Hlast. discriminate.
Qed.

Lemma every_league_is_kept_witness :
  exists kj L,
    In (kj, L) Samples.league_only_out /\ pykey kj = Some (KInt 7) /\
    ((forall tk, last_occurrence (KInt 7) tk Samples.league_only = None) ->
     l_teams L = []).
Proof.
  apply (every_league_is_kept Samples.league_only Samples.league_only_out
           (JObj [("league", Samples.league_obj (JInt 7) "U12")])
           (Samples.league_obj (JInt 7) "U12") (KInt 7)).
  - reflexivity.
  - right. left. reflexivity.
  - reflexivity.
  - reflexivity.
Defined.

Lemma finish_keys (d : pydict league_acc) (out : pydict league) :
  finish d = Ok out -> dict_keys out = dict_keys d.
Proof.
  revert out. induction d as [ | [kj la] d IH]; simpl; intros out H.
  - now injection H as <-.
  - destruct (finish_league la) as [l | e]; simpl in H; [ | discriminate ].
    destruct (finish d) as [r | e]; simpl in H; [ | discriminate ].
    injection H as <-. simpl. now rewrite (IH r eq_refl).
Qed.

Lemma teams_id_keys teams :
  teams_ok teams ->
  map (fun r => pykey (get "id" r)) (dict_values teams) = dict_keys teams.
Proof.
  intros [_ Hall]. unfold dict_values, dict_keys. rewrite map_map.
  apply map_ext_in. intros [kj r] Hin. simpl.
  destruct (Hall _ _ Hin) as (team & -> & Hk).
  now rewrite get_id_team_data.
Qed.

(** X11.  The result is deduplicated: no two leagues of the result have
    the same id, every league is filed under its own id, and no two team
    records of a league have the same id. *)
Theorem result_is_deduplicated :
  forall (matches : list json) (out : pydict league),
    aggregate matches = Ok out ->
    dict_wf out /\
    forall kj L, In (kj, L) out ->
      l_id L = kj /\
      NoDup (map (fun r => pykey (get "id" r)) (l_teams L)).
Proof.
  intros matches out Hagg. split.
  - unfold aggregate in Hagg.
    destruct (match_loop [] matches) as [d | e] eqn:Hloop; simpl in Hagg;
      [ | discriminate ].
    destruct (match_loop_ok _ _ _ acc_ok_nil Hloop) as ([Hwf _] & _).
    unfold dict_wf. now rewrite (finish_keys _ _ Hagg).
  - intros kj L Hin.
    destruct (aggregate_league _ _ _ _ Hagg Hin)
      as (d & la & lk & _ & Hok & _ & Hla & Hid & HL).
    destruct (dict_find_In _ _ _ Hla) as (kj0 & Hin0 & _).
    destruct Hok as [_ Hall]. destruct (Hall _ _ Hin0) as [_ Hteams].
    apply finish_league_inv in HL. destruct HL as (HLid & _ & Hsort).
    split; [ congruence | ].
    apply list_sort_perm in Hsort.
    eapply Permutation_NoDup;
      [ apply Permutation_map; exact Hsort | ].
    rewrite (teams_id_keys _ Hteams). apply Hteams.
Qed.

Lemma result_is_deduplicated_witness :
  dict_wf Samples.cross_league_out /\
  forall kj L, In (kj, L) Samples.cross_league_out ->
    l_id L = kj /\
    NoDup (map (fun r => pykey (get "id" r)) (l_teams L)).
Proof.
  apply (result_is_deduplicated Samples.cross_league). reflexivity.
Defined.

(** X12.  The schema of a team record: it has a truthy id and a name
    field, it never has both [club] and [clubs], a singular [club] is the
    record of one club object, and [clubs], when present, lists at least
    two club records. *)
Theorem team_record_schema :
  forall (matches : list json) (out : pydict league) (kj : json)
         (L : league) (r : json),
    aggregate matches = Ok out ->
    In (kj, L) out ->
    In r (l_teams L) ->
    truthy (get "id" r) = true /\
    has_field "name" r = true /\
    (has_field "club" r = false \/ has_field "clubs" r = false) /\
    (has_field "club" r = true ->
     exists club, get "club" r = club_record club) /\
    (has_field "clubs" r = true ->
     exists c1 c2 rest,
       get "clubs" r = JArr (club_record c1 :: club_record c2 ::
                             map club_record rest)).
Proof.
  intros matches out kj L r Hagg Hin Hr.
  destruct (record_source _ _ _ _ _ Hagg Hin Hr)
    as (m & league & team & _ & _ & _ & _ & Htruthy & ->).
  rewrite get_id_team_data. split; [ exact Htruthy | ].
  rewrite team_data_eq. unfold clubs_list.
  destruct (filter is_dict (as_list (get "clubs" team)))
    as [ | c1 [ | c2 rest]]; simpl.
  - repeat split; auto; discriminate.
  - repeat split; auto; try discriminate. intros _. now exists c1.
  - repeat split; auto; try discriminate. intros _. now exists c1, c2, rest.
Qed.

Lemma team_record_schema_witness :
  truthy (get "id" (team_data Samples.tigers)) = true /\
  has_field "name" (team_data Samples.tigers) = true /\
  (has_field "club" (team_data Samples.tigers) = false \/
   has_field "clubs" (team_data Samples.tigers) = false) /\
  (has_field "club" (team_data Samples.tigers) = true ->
   exists club, get "club" (team_data Samples.tigers) = club_record club) /\
  (has_field "clubs" (team_data Samples.tigers) = true ->
   exists c1 c2 rest,
     get "clubs" (team_data Samples.tigers) =
       JArr (club_record c1 :: club_record c2 :: map club_record rest)).
Proof.
  apply (team_record_schema Samples.scenario Samples.scenario_out (JInt 5)
           {| l_id := JInt 5; l_name := JStr "U18";
              l_teams := [team_data Samples.tigers;
                          team_data Samples.bears] |}).
  - reflexivity.
  - left. reflexivity.
  - left. reflexivity.
Defined.

Lemma sorted_related {A} (R : A -> A -> Prop) (l : list A) (a b : A) :
  StronglySorted R l -> In a l -> In b l -> a = b \/ R a b \/ R b a.
Proof.
  induction 1 as [ | x l Hs IH Hall]; simpl; [ tauto | ].
  rewrite Forall_forall in Hall.
  intros [-> | Ha] [-> | Hb]; auto.
Qed.

(** X13.  A league of the result never mixes numbers and strings as team
    ids: the final sort compares the ids with [<], which raises for a
    number against a string, so a batch with such a league has no
    result. *)
Theorem team_ids_of_one_kind :
  forall (matches : list json) (out : pydict league) (kj : json)
         (L : league) (r1 r2 : json),
    aggregate matches = Ok out ->
    In (kj, L) out ->
    In r1 (l_teams L) -> In r2 (l_teams L) ->
    is_str (get "id" r1) = is_str (get "id" r2).
Proof.
  intros matches out kj L r1 r2 Hagg Hin H1 H2.
  destruct (aggregate_league _ _ _ _ Hagg Hin)
    as (d & la & lk & _ & Hok & Hk & Hla & _ & HL).
  destruct (record_origin _ _ _ _ _ _ Hagg Hin Hk H1)
    as (tk1 & t1 & _ & _ & E1).
  destruct (record_origin _ _ _ _ _ _ Hagg Hin Hk H2)
    as (tk2 & t2 & _ & _ & E2).
  assert (Hsorted : StronglySorted id_lt (l_teams L)).
  { destruct (dict_find_In _ _ _ Hla) as (kj0 & Hin0 & _).
    destruct Hok as [_ Hall]. destruct (Hall _ _ Hin0) as [_ Hteams].
    apply finish_league_inv in HL. destruct HL as (_ & _ & Hsort).
    unfold id_lt. eapply list_sort_sorted; [ | exact Hsort ].
    rewrite (teams_sort_keys _ Hteams). apply Hteams. }
  destruct (sorted_related _ _ _ _ Hsorted H1 H2) as [-> | [H | H]];
    [ reflexivity | | ];
    unfold id_lt in H; subst r1 r2;
    rewrite !sort_key_team_data in H; rewrite !get_id_team_data;
    apply py_lt_cases in H;
    destruct H as (_ & _ & [(n & m & Ha & Hb & _) | (s & t & -> & -> & _)]);
    try reflexivity;
    destruct (get "id" t1), (get "id" t2); simpl in *;
    try discriminate; reflexivity.
Qed.

Lemma team_ids_of_one_kind_witness :
  is_str (get "id" (team_data Samples.tigers)) =
  is_str (get "id" (team_data Samples.bears)).
Proof.
  apply (team_ids_of_one_kind Samples.scenario Samples.scenario_out (JInt 5)
           {| l_id := JInt 5; l_name := JStr "U18";
              l_teams := [team_data Samples.tigers;
                          team_data Samples.bears] |}).
  - reflexivity.
  - left. reflexivity.
  - left. reflexivity.
  - right. left. reflexivity.
Defined.

Lemma process_match_raises (d : pydict league_acc) (m league : json) :
  acc_ok d ->
  match_league m = Some league ->
  (pykey (get "id" league) = None \/
   exists team, In team (match_teams m) /\ pykey (get "id" team) = None) ->
  process_match d m = Raise TypeError.
Proof.
  intros Hok Hl Hbad. rewrite process_match_eq, Hl. cbv zeta.
  destruct (pykey (get "id" league)) as [lk0 | ] eqn:Hk.
  2:{ unfold dict_contains. now rewrite Hk. }
  destruct Hbad as [Hbad | (team & Hteam & Hbad)]; [ discriminate | ].
  destruct (present <- dict_contains (get "id" league) d ;;
            if negb present
            then dict_setitem (get "id" league)
                   {| la_id := get "id" league;
                      la_name := get "name" league; la_teams := [] |} d
            else Ok d) as [d1 | e] eqn:E1.
  2:{ unfold dict_contains, dict_setitem in E1. rewrite Hk in E1.
      simpl in E1. now destruct (dict_find lk0 d). }
  destruct (ensure_league_effect _ _ _ _ _ Hk Hok E1)
    as (Hok1 & Hs1 & _ & _).
  simpl.
  assert (Hside : forall entry d0,
            side_team entry = Some team -> dict_find lk0 d0 <> None ->
            ingest_side (get "id" league) entry d0 = Raise TypeError).
  { intros entry d0 Hs Hsome. rewrite ingest_side_eq, Hs.
    unfold dict_getitem, dict_setitem. rewrite Hk.
    destruct (dict_find lk0 d0); [ | congruence ]. simpl.
    now rewrite Hbad. }
  destruct (ingest_side (get "id" league) (get "home_league_entry" m) d1)
    as [d2 | e] eqn:E2; simpl.
  - destruct (ingest_side_effect _ _ _ _ _ Hk Hs1 Hok1 E2)
      as (_ & Hs2 & _ & _).
    destruct (match_teams_inv _ _ Hteam) as [Hs | Hs].
    + rewrite (Hside _ _ Hs Hs1) in E2. discriminate.
    + now apply Hside.
  - destruct (match_teams_inv _ _ Hteam) as [Hs | Hs].
    + rewrite (Hside _ _ Hs Hs1) in E2. congruence.
    + revert E2. rewrite ingest_side_eq.
      destruct (side_team (get "home_league_entry" m)) as [t1 | ];
        [ | discriminate ].
      unfold dict_getitem, dict_setitem. rewrite Hk.
      destruct (dict_find lk0 d1); [ | congruence ]. simpl.
      destruct (pykey (get "id" t1)); simpl; congruence.
Qed.

(** X14.  One id that is truthy but unhashable (a list or a dictionary),
    as league id or as the id of a team on either side, makes the whole
    aggregation raise [TypeError], whatever the matches before and after
    it: no league of the batch is returned. *)
Theorem unhashable_id_raises :
  forall (before after : list json) (m league : json)
         (d : pydict league_acc),
    match_loop [] before = Ok d ->
    match_league m = Some league ->
    (pykey (get "id" league) = None \/
     exists team, In team (match_teams m) /\ pykey (get "id" team) = None) ->
    aggregate (before ++ m :: after) = Raise TypeError.
Proof.
  intros before after m league d Hloop Hl Hbad. unfold aggregate.
  rewrite match_loop_app, Hloop. simpl.
  destruct (match_loop_ok _ _ _ acc_ok_nil Hloop) as (Hok & _).
  now rewrite (process_match_raises _ _ _ Hok Hl Hbad).
Qed.

Lemma unhashable_id_raises_witness :
  aggregate ([] ++ Samples.game (Samples.league_obj (JInt 5) "U18")
                     Samples.tigers
                     (Samples.team (JObj [("n", JInt 1)]) "Bears" [])
                :: Samples.scenario) = Raise TypeError.
Proof.
  apply (unhashable_id_raises [] Samples.scenario _
           (Samples.league_obj (JInt 5) "U18") []).
  - reflexivity.
  - reflexivity.
  - right. exists (Samples.team (JObj [("n", JInt 1)]) "Bears" []).
    split; [ right; left; reflexivity | reflexivity ].
Defined.

Lemma match_loop_filter (matches : list json) (d : pydict league_acc) :
  match_loop d matches = match_loop d (filter names_league matches).
Proof.
  revert d. induction matches as [ | m matches IH]; intros d; simpl;
    [ reflexivity | ].
  unfold names_league at 1.
  destruct (match_league m) as [league | ] eqn:E; simpl.
  - destruct (process_match d m); simpl; [ apply IH | reflexivity ].
  - rewrite process_match_eq, E. simpl. apply IH.
Qed.

(** X15.  Entries of the batch that are not objects, and matches without
    a league object carrying a truthy id, contribute nothing: leaving
    them out of the batch gives the same result, teams of such matches
    included. *)
Theorem unusable_matches_are_ignored :
  forall matches : list json,
    aggregate matches = aggregate (filter names_league matches).
Proof.
  intros matches. unfold aggregate. now rewrite match_loop_filter.
Qed.

(** X16.  On a batch whose league and team ids are all integers, the
    aggregation raises nothing and returns a league mapping. *)
Theorem integer_ids_never_raise :
  forall matches : list json,
    Forall integer_ids matches -> exists out, aggregate matches = Ok out.
Proof. exact aggregate_returns. Qed.

Lemma integer_ids_never_raise_witness :
  exists out, aggregate Samples.scenario = Ok out.
Proof.
  apply (integer_ids_never_raise Samples.scenario).
  repeat constructor.
  - intros league H. vm_compute in H. injection H as <-.
    exists 5. reflexivity.
  - intros team [<- | [<- | []]]; [ exists 100 | exists 200 ]; reflexivity.
Defined.

(** ** The order of the leagues *)

Lemma first_seen_ext (s1 s2 l : list key) :
  (forall k, existsb (key_eqb k) s1 = existsb (key_eqb k) s2) ->
  first_seen s1 l = first_seen s2 l.
Proof.
  revert s1 s2. induction l as [ | k l IH]; intros s1 s2 H; simpl;
    [ reflexivity | ].
  rewrite <- (H k). destruct (existsb (key_eqb k) s1); [ now apply IH | ].
  f_equal. apply IH. intros k'. simpl. now rewrite H.
Qed.

Lemma write_team_keys lk0 tk0 league_id team la0 d :
  pykey league_id = Some lk0 -> dict_find lk0 d = Some la0 ->
  dict_keys (write_team lk0 league_id la0 tk0 team d) = dict_keys d.
Proof.
  intros Hk Hla. unfold write_team.
  now rewrite (dict_put_keys _ _ _ _ Hk), Hla.
Qed.

Lemma ingest_side_keys league_id lk0 entry d d' :
  pykey league_id = Some lk0 -> dict_find lk0 d <> None ->
  ingest_side league_id entry d = Ok d' -> dict_keys d' = dict_keys d.
Proof.
  intros Hk Hsome H.
  destruct (dict_find lk0 d) as [la | ] eqn:Hla; [ | congruence ].
  pose proof (ingest_side_ok _ _ _ _ _ _ Hk Hla H) as Hd'.
  destruct (side_team entry) as [team | ]; [ | now subst ].
  destruct Hd' as (tk & _ & ->). now apply write_team_keys.
Qed.

Lemma process_match_keys (d d' : pydict league_acc) (m : json) :
  acc_ok d -> process_match d m = Ok d' ->
  dict_keys d' =
    dict_keys d ++
    match match_league m with
    | Some league =>
        match pykey (get "id" league) with
        | Some k => match dict_find k d with
                    | Some _ => []
                    | None => [Some k]
                    end
        | None => []
        end
    | None => []
    end.
Proof.
  intros Hok. rewrite process_match_eq.
  destruct (match_league m) as [league | ];
    [ | intros H; injection H as <-; now rewrite app_nil_r ].
  cbv zeta. destruct (pykey (get "id" league)) as [lk0 | ] eqn:Hk;
    [ | unfold dict_contains; rewrite Hk; discriminate ].
  destruct (present <- dict_contains (get "id" league) d ;;
            if negb present
            then dict_setitem (get "id" league)
                   {| la_id := get "id" league;
                      la_name := get "name" league; la_teams := [] |} d
            else Ok d) as [d1 | e] eqn:E1; simpl; [ | discriminate ].
  destruct (ensure_league_effect _ _ _ _ _ Hk Hok E1)
    as (Hok1 & Hs1 & _ & _).
  assert (Hkeys1 : dict_keys d1 =
            dict_keys d ++ match dict_find lk0 d with
                           | Some _ => []
                           | None => [Some lk0]
                           end).
  { unfold dict_contains, dict_setitem in E1. rewrite Hk in E1.
    simpl in E1. destruct (dict_find lk0 d) eqn:Hf; simpl in E1;
      injection E1 as <-.
    - now rewrite app_nil_r.
    - now rewrite (dict_put_keys _ _ _ _ Hk), Hf. }
  destruct (ingest_side (get "id" league) (get "home_league_entry" m) d1)
    as [d2 | e] eqn:E2; simpl; [ | discriminate ].
  destruct (ingest_side_effect _ _ _ _ _ Hk Hs1 Hok1 E2)
    as (_ & Hs2 & _ & _).
  intros E3.
  rewrite (ingest_side_keys _ _ _ _ _ Hk Hs2 E3),
          (ingest_side_keys _ _ _ _ _ Hk Hs1 E2).
  exact Hkeys1.
Qed.

Lemma existsb_key_app (k : key) (s1 s2 : list key) :
  existsb (key_eqb k) (s1 ++ s2) =
  existsb (key_eqb k) s1 || existsb (key_eqb k) s2.
Proof. apply existsb_app. Qed.

Lemma match_loop_keys (matches : list json) :
  forall (d d' : pydict league_acc) (seen : list key),
    acc_ok d ->
    dict_keys d = map Some seen ->
    match_loop d matches = Ok d' ->
    dict_keys d' = dict_keys d ++ map Some (first_seen seen (league_keys matches)).
Proof.
  induction matches as [ | m matches IH]; intros d d' seen Hok Hseen H.
  - simpl in H. injection H as <-. simpl. now rewrite app_nil_r.
  - simpl in H. destruct (process_match d m) as [d1 | e] eqn:E; simpl in H;
      [ | discriminate ].
    pose proof (process_match_keys _ _ _ Hok E) as Hk1.
    destruct (process_match_ok _ _ _ Hok E) as (Hok1 & _).
    assert (Hfind : forall k, existsb (key_eqb k) seen = true <->
                              dict_find k d <> None).
    { intros k. split.
      - intros Hex Hnone. apply dict_find_None in Hnone. apply Hnone.
        rewrite Hseen. apply in_map. apply existsb_exists in Hex.
        destruct Hex as (k' & Hin & Heq). apply key_eqb_eq in Heq.
        now subst.
      - intros Hsome. destruct (dict_find k d) as [la | ] eqn:Hf;
          [ | congruence ].
        destruct (dict_find_In _ _ _ Hf) as (kj & Hin & Hkj).
        apply In_dict_keys in Hin. rewrite Hkj, Hseen in Hin.
        apply in_map_iff in Hin. destruct Hin as (k' & Heq & Hin).
        injection Heq as ->. apply existsb_exists. exists k.
        split; [ exact Hin | apply key_eqb_refl ]. }
    unfold league_keys. simpl. fold (league_keys matches).
    destruct (match_league m) as [league | ].
    + destruct (pykey (get "id" league)) as [k | ].
      * simpl. destruct (dict_find k d) as [la | ] eqn:Hf.
        -- assert (Hex : existsb (key_eqb k) seen = true)
             by (apply Hfind; congruence).
           rewrite Hex. rewrite app_nil_r in Hk1.
           rewrite (IH d1 d' seen Hok1); [ now rewrite Hk1 | congruence | exact H ].
        -- assert (Hex : existsb (key_eqb k) seen = false).
           { destruct (existsb (key_eqb k) seen) eqn:Hex; [ | reflexivity ].
             apply Hfind in Hex. congruence. }
           rewrite Hex.
           rewrite (IH d1 d' (seen ++ [k]) Hok1);
             [ | rewrite Hk1, Hseen, map_app; reflexivity | exact H ].
           rewrite Hk1, <- app_assoc. simpl. do 3 f_equal.
           apply first_seen_ext. intros k'. rewrite existsb_key_app. simpl.
           rewrite orb_false_r. apply orb_comm.
      * simpl. rewrite app_nil_r in Hk1.
        rewrite (IH d1 d' seen Hok1); [ now rewrite Hk1 | congruence | exact H ].
    + simpl. rewrite app_nil_r in Hk1.
      rewrite (IH d1 d' seen Hok1); [ now rewrite Hk1 | congruence | exact H ].
Qed.

(** X17.  The leagues of the result are in the order in which the batch
    first names them. *)
Theorem leagues_in_first_seen_order :
  forall (matches : list json) (out : pydict league),
    aggregate matches = Ok out ->
    dict_keys out = map Some (first_seen [] (league_keys matches)).
Proof.
  intros matches out Hagg. unfold aggregate in Hagg.
  destruct (match_loop [] matches) as [d | e] eqn:Hloop; simpl in Hagg;
    [ | discriminate ].
  rewrite (finish_keys _ _ Hagg).
  now rewrite (match_loop_keys matches [] d [] acc_ok_nil eq_refl Hloop).
Qed.

Lemma leagues_in_first_seen_order_witness :
  dict_keys Samples.cross_league_out =
  map Some (first_seen [] (league_keys Samples.cross_league)).
Proof.
  apply (leagues_in_first_seen_order Samples.cross_league). reflexivity.
Defined.

End AggregatorShape.

(* ================================================================== *)
(** * Whole runs of the structure builder *)
(* ================================================================== *)

Module BuilderRuns.
Import Fetcher Aggregator Builder Invariants Batch Measures.
Import PyFacts AggregatorFacts BuilderFacts FetcherBounds.

(** An organisation costs what its fetch costs. *)
Lemma get_structure_world net org_name org_id year w :
  fst (get_structure_by_organization net org_name org_id year w) =
  fst (fetch_api_with_retry net
         {| url_org := org_id; url_year := year |} MAX_RETRIES w).
Proof.
  unfold get_structure_by_organization.
  destruct (fetch_api_with_retry net _ MAX_RETRIES w)
    as [w1 [[resp | ] | e]]; try reflexivity.
  destruct (body resp) as [matches | ]; [ | reflexivity ].
  now destruct (is_list matches).
Qed.

Lemma process_organization_world net year org_name org_id s w :
  fst (process_organization net year org_name org_id s w) =
  fst (fetch_api_with_retry net
         {| url_org := org_id; url_year := year |} MAX_RETRIES w).
Proof.
  rewrite <- (get_structure_world net org_name). unfold process_organization.
  destruct (get_structure_by_organization net org_name org_id year w)
    as [w1 [org_data | e]]; simpl; [ | reflexivity ].
  destruct (copy_leagues org_data []); simpl; [ | reflexivity ].
  now destruct (nonempty org_data).
Qed.

(** The trace of one organisation: one to three requests, at most 30
    seconds of sleep, a request at the end. *)
Lemma organization_trace net year org_name org_id s w :
  let w1 := fst (process_organization net year org_name org_id s w) in
  (requests w + 1 <= requests w1 <= requests w + 3)%nat /\
  exists t' u,
    events w1 = events w ++ t' ++ [EvRequest u] /\
    0 <= slept (t' ++ [EvRequest u]) <= 30.
Proof.
  cbv zeta. rewrite process_organization_world.
  destruct (fetch_api_with_retry net
              {| url_org := org_id; url_year := year |} MAX_RETRIES w)
    as [w1 r] eqn:E.
  unfold fetch_api_with_retry, MAX_RETRIES in E.
  change (Z.to_nat 3) with 3%nat in E.
  apply fetch_loop_spec in E; [ | lia | reflexivity ].
  destruct E as (Hr & Hpos & t & Ht & Hend & Hs0 & Hs & _).
  cbn [fst]. split; [ specialize (Hpos ltac:(discriminate)); lia | ].
  destruct Hend as [[Hz _] | (t' & u & ->)]; [ discriminate | ].
  exists t', u. split; [ exact Ht | ].
  specialize (Hs ltac:(discriminate)). unfold RETRY_DELAY in Hs.
  change (Z.of_nat 3) with 3 in Hs. lia.
Qed.

(** The loop over the organisations that are left. *)
Lemma build_loop_trace net year orgs :
  forall cur total s w,
    total = cur + Z.of_nat (List.length orgs) ->
    let w' := fst (build_loop net year orgs cur total s w) in
    (requests w + List.length orgs <= requests w' <=
     requests w + 3 * List.length orgs)%nat /\
    exists t,
      events w' = events w ++ t /\
      ((orgs = [] /\ t = []) \/ exists t' u, t = t' ++ [EvRequest u]) /\
      REQUEST_DELAY * Z.of_nat (pred (List.length orgs)) <= slept t <=
      REQUEST_DELAY * Z.of_nat (pred (List.length orgs)) +
      30 * Z.of_nat (List.length orgs).
Proof.
  induction orgs as [ | [org_name org_id] orgs IH]; intros cur total s w Htot.
  - simpl. split; [ lia | ]. exists []. rewrite app_nil_r. simpl.
    unfold REQUEST_DELAY. split; [ reflexivity | split; [ now left | lia ] ].
  - cbn [build_loop].
    pose proof (organization_trace net year org_name org_id s w) as H1.
    destruct (process_organization net year org_name org_id s w)
      as [w1 s1]. cbv zeta in H1. cbn [fst] in H1.
    destruct H1 as (Hr1 & t1 & u1 & Hev1 & Hs1).
    cbn [List.length] in Htot.
    specialize (IH (cur + 1) total s1
                  (if cur + 1 <? total then sleep REQUEST_DELAY w1 else w1)
                  ltac:(lia)).
    cbv zeta in IH.
    destruct (build_loop net year orgs (cur + 1) total s1
                (if cur + 1 <? total then sleep REQUEST_DELAY w1 else w1))
      as [w' s']. cbn [fst] in IH |- *.
    destruct IH as (Hr & t & Ht & Hend & Hs).
    destruct orgs as [ | o orgs].
    + replace (cur + 1 <? total) with false in *
        by (symmetry; apply Z.ltb_ge; simpl in Htot; lia).
      destruct Hend as [[_ ->] | (t' & u' & ->)].
      * rewrite app_nil_r in Ht. simpl in Hr |- *.
        split; [ lia | ].
        exists (t1 ++ [EvRequest u1]).
        split; [ congruence | ].
        split; [ right; now exists t1, u1 | ].
        unfold REQUEST_DELAY. lia.
      * simpl in Hs. rewrite slept_app in Hs. simpl in Hs.
        simpl in Hr. split; [ simpl; lia | ].
        exists ((t1 ++ [EvRequest u1]) ++ t' ++ [EvRequest u']).
        rewrite Ht, Hev1, <- !app_assoc.
        split; [ reflexivity | ].
        split; [ right; exists (t1 ++ [EvRequest u1] ++ t'), u';
                 now rewrite <- !app_assoc | ].
        rewrite !slept_app in *. simpl in *. unfold REQUEST_DELAY in *. lia.
    + replace (cur + 1 <? total) with true in *
        by (symmetry; apply Z.ltb_lt; cbn [List.length] in Htot; lia).
      destruct Hend as [[Hnil _] | (t' & u' & ->)]; [ discriminate | ].
      unfold sleep in Ht, Hr. cbn [requests events] in Ht, Hr.
      cbn [List.length] in *.
      split; [ lia | ].
      exists ((t1 ++ [EvRequest u1]) ++ [EvSleep REQUEST_DELAY] ++
              t' ++ [EvRequest u']).
      rewrite Ht, Hev1, <- !app_assoc.
      split; [ reflexivity | ].
      split; [ right;
               exists (t1 ++ [EvRequest u1] ++ [EvSleep REQUEST_DELAY] ++ t'),
                      u'; now rewrite <- !app_assoc | ].
      rewrite !slept_app in *. cbn [slept app pred] in *.
      unfold REQUEST_DELAY in *. lia.
Qed.

(** X18.  A run over n organisations sends at least n and at most
    MAX_RETRIES * n requests, whatever the network answers. *)
Theorem build_request_bound :
  forall (net : network) (orgs : list (string * json)) (year : Z)
         (w : world),
    let w' := fst (build_structure net orgs year w) in
    (requests w + List.length orgs <= requests w' <=
     requests w + Z.to_nat MAX_RETRIES * List.length orgs)%nat.
Proof.
  intros net orgs year w. unfold build_structure.
  apply (build_loop_trace net year orgs 0 _ _ w). lia.
Qed.

(** X19.  The pacing of a run over n organisations: it pauses
    REQUEST_DELAY seconds between two organisations and not after the
    last one, so the trace of a run ends with a request; together with
    the backoff of the fetches the run sleeps at least
    REQUEST_DELAY * (n - 1) and at most REQUEST_DELAY * (n - 1) + 30 * n
    seconds. *)
Theorem build_pacing :
  forall (net : network) (orgs : list (string * json)) (year : Z)
         (w : world),
    let w' := fst (build_structure net orgs year w) in
    let n := List.length orgs in
    ends_with_request (added w w') /\
    REQUEST_DELAY * Z.of_nat (pred n) <= slept (added w w') <=
    REQUEST_DELAY * Z.of_nat (pred n) + 30 * Z.of_nat n.
Proof.
  intros net orgs year w. unfold build_structure.
  destruct (build_loop_trace net year orgs 0
              (Z.of_nat (List.length orgs))
              (initial_structure orgs year) w ltac:(lia))
    as (_ & t & Ht & Hend & Hs).
  cbv zeta. rewrite (added_app _ _ _ Ht). split; [ | exact Hs ].
  destruct Hend as [[_ ->] | Hend]; [ now left | now right ].
Qed.

Lemma build_loop_counts net year orgs :
  forall cur total s w,
    let s' := snd (build_loop net year orgs cur total s w) in
    successful_organizations (s_metadata s') +
    failed_organizations (s_metadata s') =
      successful_organizations (s_metadata s) +
      failed_organizations (s_metadata s) + Z.of_nat (List.length orgs) /\
    0 <= successful_organizations (s_metadata s') -
         successful_organizations (s_metadata s) /\
    0 <= failed_organizations (s_metadata s') -
         failed_organizations (s_metadata s) /\
    total_organizations (s_metadata s') =
      total_organizations (s_metadata s) /\
    s_year s' = s_year s.
Proof.
  induction orgs as [ | [org_name org_id] orgs IH]; intros cur total s w.
  - simpl. repeat split; lia.
  - cbn [build_loop].
    destruct (process_organization net year org_name org_id s w)
      as [w1 s1] eqn:E.
    destruct (process_organization_spec _ _ _ _ _ _ _ _ E)
      as (entry & _ & _ & Hyear & Htot & Hcount).
    specialize (IH (cur + 1) total s1
                  (if cur + 1 <? total then sleep REQUEST_DELAY w1 else w1)).
    cbv zeta in IH |- *.
    destruct (build_loop net year orgs (cur + 1) total s1
                (if cur + 1 <? total then sleep REQUEST_DELAY w1 else w1))
      as [w' s']. cbn [snd] in IH |- *. cbn [List.length].
    destruct IH as (Hsum & Hs & Hf & Ht & Hy).
    destruct Hcount as [(_ & Hs1 & Hf1) | (_ & Hs1 & Hf1)];
      repeat split; try lia; congruence.
Qed.

(** X20.  Every organisation is counted exactly once: after a run the
    successful and the failed counter add up to the number of configured
    organisations, which is also [total_organizations]; the year is the
    one that was asked for. *)
Theorem counters_add_up :
  forall (net : network) (orgs : list (string * json)) (year : Z)
         (w : world),
    let m := s_metadata (snd (build_structure net orgs year w)) in
    successful_organizations m + failed_organizations m =
      total_organizations m /\
    total_organizations m = Z.of_nat (List.length orgs) /\
    0 <= successful_organizations m /\ 0 <= failed_organizations m /\
    s_year (snd (build_structure net orgs year w)) = year.
Proof.
  intros net orgs year w. unfold build_structure.
  destruct (build_loop_counts net year orgs 0
              (Z.of_nat (List.length orgs))
              (initial_structure orgs year) w)
    as (Hsum & Hs & Hf & Ht & Hy).
  cbv zeta. simpl in *. repeat split; lia.
Qed.

Lemma copy_leagues_all (items leagues : pydict league) :
  dict_wf (leagues ++ items) ->
  copy_leagues items leagues = Ok (leagues ++ items).
Proof.
  revert leagues. induction items as [ | [kj l] items IH]; intros leagues Hwf.
  - simpl. now rewrite app_nil_r.
  - simpl. destruct Hwf as [Hnd Hsome]. unfold dict_keys in Hnd, Hsome.
    rewrite map_app in Hnd, Hsome. simpl in Hnd, Hsome.
    destruct (pykey kj) as [k | ] eqn:Hk.
    2:{ exfalso. apply Hsome. apply in_or_app. right. now left. }
    unfold dict_setitem. rewrite Hk. simpl.
    assert (Hnone : dict_find k leagues = None).
    { destruct (dict_find k leagues) as [v | ] eqn:Hf; [ | reflexivity ].
      destruct (dict_find_In _ _ _ Hf) as (kj' & Hin & Hkj').
      exfalso. apply (NoDup_remove_2 _ _ _ Hnd). apply in_or_app. left.
      rewrite <- Hkj'. now apply (In_dict_keys kj' v). }
    rewrite (dict_put_absent _ _ _ _ Hnone). destruct l as [i n t].
    cbn [l_id l_name l_teams]. rewrite IH; rewrite <- app_assoc;
      [ reflexivity | ].
    split; unfold dict_keys; rewrite map_app; simpl; rewrite Hk;
      assumption.
Qed.

Lemma get_structure_wf net org_name org_id year w w1 org_data :
  get_structure_by_organization net org_name org_id year w =
    (w1, Ok org_data) ->
  dict_wf org_data.
Proof.
  unfold get_structure_by_organization.
  destruct (fetch_api_with_retry net _ MAX_RETRIES w)
    as [w0 [[resp | ] | e]]; try discriminate.
  - destruct (body resp) as [matches | ].
    + destruct (is_list matches); simpl.
      * intros H. injection H as _ H.
        unfold aggregate in H.
        destruct (match_loop [] (as_list matches)) as [d | e] eqn:Hloop;
          simpl in H; [ | discriminate ].
        destruct (match_loop_ok _ _ _ acc_ok_nil Hloop) as ([Hwf _] & _).
        unfold dict_wf.
        assert (Hkeys : dict_keys org_data = dict_keys d).
        { clear Hloop Hwf. revert org_data H.
          induction d as [ | [kj la] d IHd]; simpl; intros out H.
          - now injection H as <-.
          - destruct (finish_league la) as [l | e]; simpl in H;
              [ | discriminate ].
            destruct (finish d) as [r | e]; simpl in H; [ | discriminate ].
            injection H as <-. simpl. now rewrite (IHd r eq_refl). }
        now rewrite Hkeys.
      * intros H. injection H as _ <-. apply dict_wf_nil.
    + intros H. injection H as _ <-. apply dict_wf_nil.
  - intros H. injection H as _ <-. apply dict_wf_nil.
Qed.

(** X21.  What the aggregation returns for an organisation goes into its
    entry unchanged and in the same order (the copy of lines 324-329 loses
    nothing), with the organisation's id and without an error; the entry
    counts as successful exactly when there is at least one league. *)
Theorem leagues_pass_through :
  forall (net : network) (year : Z) (org_name : string) (org_id : json)
         (s : structure) (w w1 : world) (org_data : pydict league),
    get_structure_by_organization net org_name org_id year w =
      (w1, Ok org_data) ->
    process_organization net year org_name org_id s w =
      (w1,
       (if nonempty org_data then count_successful else count_failed)
         (set_organization org_name
            {| o_id := org_id; o_leagues := org_data; o_error := None |}
            s)).
Proof.
  intros net year org_name org_id s w w1 org_data H.
  pose proof (get_structure_wf _ _ _ _ _ _ _ H) as Hwf.
  unfold process_organization. rewrite H. simpl.
  rewrite (copy_leagues_all org_data [] Hwf). simpl.
  now destruct (nonempty org_data).
Qed.

Lemma leagues_pass_through_witness :
  process_organization Samples.good_then_silence 2025 "Nord" (JStr "1")
    (initial_structure Samples.two_orgs 2025) Samples.fresh =
  ({| requests := 1;
      events := [EvRequest {| url_org := JStr "1"; url_year := 2025 |}] |},
   (if nonempty Samples.scenario_out then count_successful else count_failed)
     (set_organization "Nord"
        {| o_id := JStr "1"; o_leagues := Samples.scenario_out;
           o_error := None |}
        (initial_structure Samples.two_orgs 2025))).
Proof.
  apply (leagues_pass_through Samples.good_then_silence 2025 "Nord"
           (JStr "1") (initial_structure Samples.two_orgs 2025)
           Samples.fresh).
  reflexivity.
Defined.

Lemma unreachable_organization net year org_name org_id s w :
  (forall n u, exists e, net n u = Fails e /\ transient e = true) ->
  process_organization net year org_name org_id s w =
    ({| requests := requests w + 3;
        events := events w ++
                  fixed_trace {| url_org := org_id; url_year := year |} 3 |},
     count_failed
       (set_organization org_name
          {| o_id := org_id; o_leagues := []; o_error := None |} s)).
Proof.
  intros Hnet. unfold process_organization, get_structure_by_organization.
  unfold fetch_api_with_retry, MAX_RETRIES. change (Z.to_nat 3) with 3%nat.
  rewrite (fetch_loop_retried net _ 3 (fun _ => RETRY_DELAY) 3 1 w);
    [ reflexivity | reflexivity | ].
  intros k w0 a _ _. destruct (Hnet (requests w0)
                                 {| url_org := org_id; url_year := year |})
    as (e & He & Ht).
  now apply (attempt_once_transient _ _ _ _ _ e).
Qed.

Lemma unreachable_loop net year orgs :
  (forall n u, exists e, net n u = Fails e /\ transient e = true) ->
  forall cur total s w,
    (forall kj e, In (kj, e) (s_organizations s) ->
       o_leagues e = [] /\ o_error e = None) ->
    let r := build_loop net year orgs cur total s w in
    requests (fst r) = (requests w + 3 * List.length orgs)%nat /\
    successful_organizations (s_metadata (snd r)) =
      successful_organizations (s_metadata s) /\
    failed_organizations (s_metadata (snd r)) =
      failed_organizations (s_metadata s) + Z.of_nat (List.length orgs) /\
    (forall kj e, In (kj, e) (s_organizations (snd r)) ->
       o_leagues e = [] /\ o_error e = None).
Proof.
  intros Hnet. induction orgs as [ | [org_name org_id] orgs IH];
    intros cur total s w Hs.
  - simpl. split; [ lia | split; [ lia | split; [ lia | exact Hs ] ] ].
  - cbn [build_loop]. rewrite (unreachable_organization _ _ _ _ _ _ Hnet).
    match goal with
    | |- context [build_loop net year orgs ?c total ?s1 ?w1] =>
        specialize (IH c total s1 w1)
    end.
    cbv zeta in IH |- *.
    destruct IH as (Hr & Hsucc & Hfail & Hall).
    { intros kj e Hin. simpl in Hin.
      apply (dict_put_In (KStr org_name) (JStr org_name)) in Hin;
        [ | reflexivity ].
      destruct Hin as [Hin | (-> & _)]; [ now apply (Hs kj) | now split ]. }
    rewrite Hr, Hsucc, Hfail. cbn [List.length].
    split.
    { destruct (cur + 1 <? total); unfold sleep; cbn [requests]; lia. }
    simpl. split; [ lia | split; [ lia | exact Hall ] ].
Qed.

(** X22.  When the network is unreachable (every request times out or
    fails to connect), a run still ends with a complete structure: it has
    spent the whole budget of three requests on every organisation, no
    organisation is successful, all are counted as failed, and the entries
    have no leagues and no error annotation. *)
Theorem unreachable_network_run :
  forall (net : network) (orgs : list (string * json)) (year : Z)
         (w : world),
    (forall n u, exists e, net n u = Fails e /\ transient e = true) ->
    let r := build_structure net orgs year w in
    requests (fst r) = (requests w + 3 * List.length orgs)%nat /\
    successful_organizations (s_metadata (snd r)) = 0 /\
    failed_organizations (s_metadata (snd r)) =
      Z.of_nat (List.length orgs) /\
    (forall kj e, In (kj, e) (s_organizations (snd r)) ->
       o_leagues e = [] /\ o_error e = None).
Proof.
  intros net orgs year w Hnet. unfold build_structure.
  apply (unreachable_loop net year orgs Hnet 0 _
           (initial_structure orgs year) w).
  intros kj e [].
Qed.

Lemma unreachable_network_run_witness :
  let r := build_structure Samples.timing_out Samples.two_orgs 2025
             Samples.fresh in
  requests (fst r) = (0 + 3 * 2)%nat /\
  successful_organizations (s_metadata (snd r)) = 0 /\
  failed_organizations (s_metadata (snd r)) = 2 /\
  (forall kj e, In (kj, e) (s_organizations (snd r)) ->
     o_leagues e = [] /\ o_error e = None).
Proof.
  apply (unreachable_network_run Samples.timing_out Samples.two_orgs 2025
           Samples.fresh).
  intros n u. exists ReqTimeout. split; reflexivity.
Defined.

End BuilderRuns.

(* ================================================================== *)
(** * Runs of the snapshot writer and of the main function *)
(* ================================================================== *)

Module WriterRuns.
Import Writer.

Section Runs.
Context {doc : Type}.
Implicit Types (d : disk doc) (structure : doc) (fl : faults).

Lemma try_block_done fl structure year d :
  snd (try_block fl structure year d) = Ok tt ->
  let d' := fst (try_block fl structure year d) in
  file (now d') (OutputFile year) = Some (Complete structure) /\
  file (now d') (TempFile year) = None /\
  data_dir_exists (now d') = true.
Proof.
  run_try.
  destruct (data_dir_exists (now d)) eqn:Hdir; simpl;
    destruct (fl OpMakedirs); simpl;
    destruct (fl OpOpen); simpl;
    destruct (fl OpDump); simpl;
    destruct (file (now d) (OutputFile year)); simpl;
    destruct (fl OpRemove); simpl;
    destruct (fl OpRename); simpl;
    try discriminate; intros _; rewrite ?Z.eqb_refl; simpl; auto.
Qed.

Lemma try_block_no_fault fl structure year d :
  (forall o, fl o = None) -> snd (try_block fl structure year d) = Ok tt.
Proof.
  intros H. run_try. rewrite !H. simpl.
  destruct (data_dir_exists (now d)); simpl;
    destruct (file (now d) (OutputFile year)); reflexivity.
Qed.

Lemma save_true_done fl structure year d :
  snd (save_structure fl structure year d) = Ok true ->
  file (now (fst (save_structure fl structure year d))) (OutputFile year) =
    Some (Complete structure) /\
  file (now (fst (save_structure fl structure year d))) (TempFile year) =
    None /\
  data_dir_exists (now (fst (save_structure fl structure year d))) = true.
Proof.
  rewrite WriterFacts.save_structure_true, WriterFacts.save_structure_disk.
  apply try_block_done.
Qed.

Lemma save_no_fault fl structure year d :
  (forall o, fl o = None) ->
  snd (save_structure fl structure year d) = Ok true.
Proof.
  rewrite WriterFacts.save_structure_true. apply try_block_no_fault.
Qed.



End Runs.


(** X25.  Unless it is [os.rename] that fails, a run of [save_structure]
    that does not return True leaves the file at the output path exactly
    as it was. *)
Theorem failed_save_keeps_snapshot :
  forall (doc : Type) (fl : faults) (structure : doc) (year : Z)
         (d : disk doc),
    fl OpRename = None ->
    snd (save_structure fl structure year d) <> Ok true ->
    file (now (fst (save_structure fl structure year d))) (OutputFile year) =
    file (now d) (OutputFile year).
Proof.
  intros doc. exact (@WriterFacts.snapshot_kept_unless_rename_fails doc).
Qed.

Lemma failed_save_keeps_snapshot_witness :
  file (now (fst (save_structure (fail_at OpDump TypeError) 2 2025
                    (disk_with (Complete 1) 2025))))
       (OutputFile 2025) =
  file (now (disk_with (Complete 1) 2025)) (OutputFile 2025).
Proof.
  apply (failed_save_keeps_snapshot Z (fail_at OpDump TypeError) 2 2025
           (disk_with (Complete 1) 2025)).
  - reflexivity.
  - discriminate.
Defined.

(** X26.  If the output path held no partially written document before
    and at the start of a run of [save_structure], it holds none in any
    state the disk goes through during the run, whichever operations
    fail: a document reaches the output path only by the rename of the
    completely written temporary file. *)
Theorem output_is_never_partial :
  forall (doc : Type) (fl : faults) (structure : doc) (year : Z)
         (d : disk doc),
    (forall st, In st (past d ++ [now d]) ->
       forall x, file st (OutputFile year) <> Some (Partial x)) ->
    forall st,
      In st (past (fst (save_structure fl structure year d)) ++
             [now (fst (save_structure fl structure year d))]) ->
      forall x, file st (OutputFile year) <> Some (Partial x).
Proof.
  intros doc. exact (@WriterFacts.output_never_partial doc).
Qed.

Lemma output_is_never_partial_witness :
  file (now (fst (save_structure (fail_at OpRename OSError) 2 2025
                    (disk_with (Complete 1) 2025))))
       (OutputFile 2025) <> Some (Partial 2) /\
  file (now (fst (save_structure (fail_at OpDump OSError) 2 2025
                    (disk_with (Complete 1) 2025))))
       (OutputFile 2025) <> Some (Partial 2).
Proof.
  split.
  - apply (output_is_never_partial Z (fail_at OpRename OSError) 2 2025
             (disk_with (Complete 1) 2025)).
    + intros st [<- | []] x. simpl. discriminate.
    + apply in_or_app. right. left. reflexivity.
  - apply (output_is_never_partial Z (fail_at OpDump OSError) 2 2025
             (disk_with (Complete 1) 2025)).
    + intros st [<- | []] x. simpl. discriminate.
    + apply in_or_app. right. left. reflexivity.
Defined.

End WriterRuns.

Module MainFacts.
Import Fetcher Builder Writer Main.

(** X27.  Without a usable configuration nothing happens: when the file
    is missing, unreadable or not valid JSON, or when it holds anything
    but a non-empty dictionary, [main] exits with status 1 before any
    request is sent and without touching the disk. *)
Theorem main_needs_configuration :
  forall (cfg : config_file) (net : network) (fl : faults) (year : Z)
         (w : world) (d : disk structure),
    (forall kv, cfg = Holds (JObj kv) -> kv = []) ->
    main cfg net fl year w d = (w, d, 1).
Proof.
  intros cfg net fl year w d H. unfold main, get_organizations, load_config.
  destruct cfg as [ | e | | v]; try reflexivity.
  destruct v; try reflexivity.
  now rewrite (H kv eq_refl).
Qed.

Lemma main_needs_configuration_witness :
  main (Holds (JArr [JStr "Nord"])) Samples.good_then_silence
    Samples.no_faults 2025 Samples.fresh Samples.empty_disk =
  (Samples.fresh, Samples.empty_disk, 1).
Proof.
  apply (main_needs_configuration (Holds (JArr [JStr "Nord"]))).
  intros kv H. discriminate H.
Defined.

(** X28.  [main] ends with status 0 only if the configuration is a
    non-empty dictionary, and then the output file of the year holds the
    complete structure that [build_structure] built for exactly these
    organisations, and no temporary file is left. *)
Theorem main_exit_zero :
  forall (cfg : config_file) (net : network) (fl : faults) (year : Z)
         (w w' : world) (d d' : disk structure),
    main cfg net fl year w d = (w', d', 0) ->
    exists kv,
      cfg = Holds (JObj kv) /\ kv <> [] /\
      w' = fst (build_structure net kv year w) /\
      file (now d') (OutputFile year) =
        Some (Complete (snd (build_structure net kv year w))) /\
      file (now d') (TempFile year) = None.
Proof.
  intros cfg net fl year w w' d d'.
  unfold main, get_organizations, load_config.
  destruct cfg as [ | e | | v]; try discriminate.
  destruct v; try discriminate. cbn [is_dict negb items].
  destruct kv as [ | o kv]; [ discriminate | ].
  destruct (Z.of_nat (List.length (o :: kv)) =? 0) eqn:E;
    [ discriminate | ].
  destruct (build_structure net (o :: kv) year w) as [w1 s] eqn:Hb.
  pose proof (WriterRuns.save_true_done fl s year d) as Hdone.
  destruct (save_structure fl s year d) as [d1 [[ | ] | e]];
    try discriminate.
  intros H. injection H as <- <-.
  destruct (Hdone eq_refl) as (Hout & Htmp & _).
  exists (o :: kv). rewrite Hb. cbn [fst snd] in *.
  split; [ reflexivity | ]. split; [ discriminate | ].
  split; [ reflexivity | ]. split; assumption.
Qed.

Lemma main_exit_zero_witness :
  exists kv,
    Samples.two_orgs_config = Holds (JObj kv) /\ kv <> [] /\
    fst (build_structure Samples.refusing Samples.two_orgs 2025
           Samples.fresh) =
      fst (build_structure Samples.refusing kv 2025 Samples.fresh) /\
    file (now (fst (save_structure Samples.no_faults
                      (snd (build_structure Samples.refusing
                              Samples.two_orgs 2025 Samples.fresh))
                      2025 Samples.empty_disk)))
         (OutputFile 2025) =
      Some (Complete (snd (build_structure Samples.refusing kv 2025
                             Samples.fresh))) /\
    file (now (fst (save_structure Samples.no_faults
                      (snd (build_structure Samples.refusing
                              Samples.two_orgs 2025 Samples.fresh))
                      2025 Samples.empty_disk)))
         (TempFile 2025) = None.
Proof.
  apply (main_exit_zero Samples.two_orgs_config Samples.refusing
           Samples.no_faults 2025 Samples.fresh _ Samples.empty_disk).
  reflexivity.
Defined.

(** X29.  The exit status does not depend on the network: with a
    non-empty configuration and a disk on which nothing fails, [main] ends
    with status 0 whatever the requests return, also when no organisation
    delivered any league. *)
Theorem main_survives_network :
  forall (net : network) (kv : list (string * json)) (fl : faults)
         (year : Z) (w : world) (d : disk structure),
    kv <> [] ->
    (forall o, fl o = None) ->
    snd (main (Holds (JObj kv)) net fl year w d) = 0.
Proof.
  intros net kv fl year w d Hkv Hfl.
  unfold main, get_organizations, load_config. cbn [is_dict negb items].
  destruct kv as [ | o kv]; [ congruence | ].
  destruct (Z.of_nat (List.length (o :: kv)) =? 0) eqn:E.
  { apply Z.eqb_eq in E. simpl in E. lia. }
  destruct (build_structure net (o :: kv) year w) as [w1 s].
  pose proof (WriterRuns.save_no_fault fl s year d Hfl) as Hok.
  destruct (save_structure fl s year d) as [d1 r]. simpl in Hok.
  now rewrite Hok.
Qed.

Lemma main_survives_network_witness :
  snd (main (Holds (JObj Samples.two_orgs)) Samples.refusing
         Samples.no_faults 2025 Samples.fresh Samples.empty_disk) = 0.
Proof.
  apply (main_survives_network Samples.refusing Samples.two_orgs
           Samples.no_faults 2025 Samples.fresh Samples.empty_disk).
  - discriminate.
  - reflexivity.
Defined.

End MainFacts.
